(** * Chat streaming translation engine: embedding and properties

    Shallow embedding of the chat service (header filter, SSE framing,
    socket event normaliser, and the two sinks [streamChatGenerator] and
    [nonStreamChat]) together with the properties of its specification.

    Modelling conventions.
    - JavaScript strings are [string]; [startsWith] is [String.prefix],
      [slice(n)] with a non-negative [n] is [slice], [+] is [String.append]
      (written [+:+]), a string is truthy iff it is not empty.
    - The objects [modeByType], [prevContentByType], [filtered] and
      [headers] are used as dictionaries with case-sensitive string keys:
      they are [gmap string _].
    - An async generator is the list of the values it yields, together with
      whether it has returned; a promise is [Pending], [Resolved] or
      [Rejected].
    - The socket feed is the list of callbacks in arrival order; an
      exhausted list means the iterator is awaiting the next callback. *)

From stdpp Require Import base option list strings gmap.
From Stdlib Require Import ZArith Ascii String.

Local Open Scope Z_scope.
Local Open Scope nat_scope.

(* ====================================================================== *)
(** ** String primitives *)
(* ====================================================================== *)

Module JsString.

(** [s.length > 0], the truthiness of a string. *)
Definition truthy (s : string) : bool :=
  match s with
  | EmptyString => false
  | String _ _ => true
  end.

(** [s.slice(n)] for [n >= 0]: drops the first [n] characters, and gives
    the empty string when [n] exceeds the length. *)
Fixpoint slice (n : nat) (s : string) : string :=
  match n, s with
  | O, _ => s
  | S _, EmptyString => EmptyString
  | S n', String _ s' => slice n' s'
  end.

(** [content.startsWith(prev)]. *)
Definition startsWith (content prev : string) : bool :=
  String.prefix prev content.

(** Lower-casing of one character of a header name. *)
Definition lower_ascii (c : ascii) : ascii :=
  let n := nat_of_ascii c in
  if (65 <=? n)%nat && (n <=? 90)%nat then ascii_of_nat (n + 32) else c.

(** [name.toLowerCase()] on header names, which are ASCII tokens. *)
Fixpoint toLowerCase (s : string) : string :=
  match s with
  | EmptyString => EmptyString
  | String c s' => String (lower_ascii c) (toLowerCase s')
  end.

(** Concatenation of a list of texts, in order. *)
Fixpoint concat_all (l : list string) : string :=
  match l with
  | [] => EmptyString
  | s :: l' => s +:+ concat_all l'
  end.

End JsString.
Import JsString.

(* ====================================================================== *)
(** ** Header filter *)
(* ====================================================================== *)

Definition ALLOWED_HEADER_NAMES : gset string :=
  list_to_set
    [ "authorization"; "content-type"; "accept"; "openai-organization";
      "openai-project"; "idempotency-key"; "openai-beta"; "x-request-id";
      "user-agent"; "accept-encoding"; "accept-language"; "content-length" ].

Definition ALLOWED_HEADER_PREFIXES : list string := [ "openai-"; "x-openai-" ].

Definition isAllowedHeader (headerName : string) : bool :=
  let nameLower := toLowerCase headerName in
  if bool_decide (nameLower ∈ ALLOWED_HEADER_NAMES) then true
  else existsb (fun prefix => startsWith nameLower prefix) ALLOWED_HEADER_PREFIXES.

(** The loop of [filterAllowedHeaders] over [headers.entries()]: the
    accumulator is the pair of [filtered] and [droppedHeaders]. *)
Fixpoint filter_entries (entries : list (string * string))
    (filtered : gmap string string) (droppedHeaders : list string)
    : gmap string string * list string :=
  match entries with
  | [] => (filtered, droppedHeaders)
  | (name, value) :: rest =>
      if isAllowedHeader name
      then filter_entries rest (<[name := value]> filtered) droppedHeaders
      else filter_entries rest filtered (droppedHeaders ++ [name])
  end.

(** [filterAllowedHeaders(headers)]; the debug log of the dropped names is
    not part of the result. *)
Definition filterAllowedHeaders (entries : list (string * string))
    : gmap string string :=
  fst (filter_entries entries ∅ []).

(* ====================================================================== *)
(** ** SSE frames *)
(* ====================================================================== *)

(** One element of [choices] of an [SSEChunk]; [delta] is [{ content }]
    ([Some content]) or [{}] ([None]). *)
Record Choice := mkChoice {
  index : nat;
  delta : option string;
  finish_reason : option string;
  logprobs : option string
}.

Record SSEChunk := mkSSEChunk {
  id : string;
  object : string;
  created : Z;
  model : string;
  choices : list Choice
}.

(** [createSSEChunk]; [now] is the reading of [Date.now()] and the result
    is the object that is serialised after the [data: ] tag. *)
Definition createSSEChunk (now : Z) (requestId model content : string)
    (finishReason : option string) : SSEChunk :=
  {| id := requestId;
     object := "chat.completion.chunk";
     created := (now / 1000)%Z;
     model := model;
     choices :=
       [ {| index := 0;
            delta := if truthy content then Some content else None;
            finish_reason := finishReason;
            logprobs := None |} ] |}.

(** What the event-stream sink yields: an encoded [data: <json>] line or
    the [data: [DONE]] sentinel. *)
Inductive Encoded :=
| SSEData (chunk : SSEChunk)
| SSEDone.

(** The arguments of one [yield]: the content and finish reason given to
    [createSSEChunk], or the sentinel. *)
Inductive Yield :=
| YChunk (content : string) (finishReason : option string)
| YDone.

(* ====================================================================== *)
(** ** Socket events *)
(* ====================================================================== *)

(** [JSON.parse(bufferStr)] with the reads [bufferData.type] and
    [bufferData.chat?.content || ""].  [BufferMalformed] is a parse that
    throws (caught by the inner [try]); a missing content is [""]; a type
    that is missing or not a string is any text other than ["chat"] and
    ["thinking"].  The content is a string, as the wire format has it and
    as the declared type of [prevContentByType] requires. *)
Inductive Buffer :=
| BufferMalformed
| BufferData (type content : string).

(** [JSON.parse(event.data)] with the reads [data.type],
    [data.buffer || "{}"] and [(data.state || {}).inProgress].
    [DataMalformed] is a frame whose decoding throws (caught by the outer
    [try]); [DataOther] has a type that is neither ["update"] nor
    ["state"]; [inProgress] is the truthiness of the field. *)
Inductive Data :=
| DataMalformed
| DataUpdate (buffer : Buffer)
| DataState (inProgress : bool)
| DataOther.

(** The items queued by the socket callbacks and yielded by the iterator. *)
Inductive WsEvent :=
| EvMessage (data : Data)
| EvClose
| EvError (error : string).

(** [wsMessageIterator]: every message in arrival order, then exactly one
    terminal event, after which nothing is yielded. *)
Fixpoint wsMessageIterator (queue : list WsEvent) : list WsEvent :=
  match queue with
  | [] => []
  | EvMessage data :: rest => EvMessage data :: wsMessageIterator rest
  | EvClose :: _ => [EvClose]
  | EvError error :: _ => [EvError error]
  end.

(* ====================================================================== *)
(** ** Session state shared by the two sinks *)
(* ====================================================================== *)

Inductive Mode := snapshot | delta_mode.

Record Session := mkSession {
  receivedUpdate : bool;
  lastBufferType : option string;
  inThinkingBlock : bool;
  modeByType : gmap string Mode;
  prevContentByType : gmap string string
}.

Definition initial : Session :=
  {| receivedUpdate := false;
     lastBufferType := None;
     inThinkingBlock := false;
     modeByType := ∅;
     prevContentByType := ∅ |}.

Definition is_segment (bufferType : string) : bool :=
  bool_decide (bufferType = "chat") || bool_decide (bufferType = "thinking").

(** How an iteration of the consumption loop ends. *)
Inductive Flow := Continue | Break.

(* ====================================================================== *)
(** ** Event-stream sink *)
(* ====================================================================== *)

Module Stream.

(** Body of [if (content)] in the [update] branch: the contents yielded,
    in order, and the state afterwards. *)
Definition on_content (st : Session) (bufferType content : string)
    : list string * Session :=
  (* type switch *)
  let '(ys, lastBufferType1, inThinkingBlock1) :=
    if bool_decide (Some bufferType ≠ lastBufferType st) then
      let '(ys_close, inT) :=
        if inThinkingBlock st then (["</think>"], false)
        else ([], inThinkingBlock st) in
      let '(ys_open, inT') :=
        if bool_decide (bufferType = "thinking") then (["<think>"], true)
        else ([], inT) in
      (ys_close ++ ys_open, Some bufferType, inT')
    else ([], lastBufferType st, inThinkingBlock st) in
  (* increment *)
  let prev := default "" (prevContentByType st !! bufferType) in
  let mode := modeByType st !! bufferType in
  let '(mode1, modeByType1) :=
    match mode with
    | None =>
        if truthy prev then
          if startsWith content prev
          then (Some snapshot, <[bufferType := snapshot]> (modeByType st))
          else (Some delta_mode, <[bufferType := delta_mode]> (modeByType st))
        else (mode, modeByType st)
    | Some _ => (mode, modeByType st)
    end in
  let '(delta, prevContentByType1) :=
    match mode1 with
    | Some snapshot =>
        (slice (String.length prev) content,
         <[bufferType := content]> (prevContentByType st))
    | Some delta_mode =>
        (content, <[bufferType := prev +:+ content]> (prevContentByType st))
    | None =>
        (content, <[bufferType := content]> (prevContentByType st))
    end in
  (ys ++ (if truthy delta then [delta] else []),
   {| receivedUpdate := receivedUpdate st;
      lastBufferType := lastBufferType1;
      inThinkingBlock := inThinkingBlock1;
      modeByType := modeByType1;
      prevContentByType := prevContentByType1 |}).

(** Body of the loop for one message event. *)
Definition on_message (st : Session) (data : Data)
    : list string * Session * Flow :=
  match data with
  | DataMalformed => ([], st, Continue)
  | DataUpdate buffer =>
      let st1 :=
        {| receivedUpdate := true;
           lastBufferType := lastBufferType st;
           inThinkingBlock := inThinkingBlock st;
           modeByType := modeByType st;
           prevContentByType := prevContentByType st |} in
      match buffer with
      | BufferMalformed => ([], st1, Continue)
      | BufferData bufferType content =>
          if is_segment bufferType then
            if truthy content then
              let '(ys, st2) := on_content st1 bufferType content in
              (ys, st2, Continue)
            else ([], st1, Continue)
          else ([], st1, Continue)
      end
  | DataState inProgress =>
      if negb inProgress && receivedUpdate st then
        if inThinkingBlock st then
          (["</think>"],
           {| receivedUpdate := receivedUpdate st;
              lastBufferType := lastBufferType st;
              inThinkingBlock := false;
              modeByType := modeByType st;
              prevContentByType := prevContentByType st |},
           Break)
        else ([], st, Break)
      else ([], st, Continue)
  | DataOther => ([], st, Continue)
  end.

(** The [for await] loop: the contents yielded, the state when the loop
    stops, and whether it left by [break] ([Break]) or is awaiting the
    next event ([Continue]). *)
Fixpoint loop (st : Session) (events : list WsEvent)
    : list string * Session * Flow :=
  match events with
  | [] => ([], st, Continue)
  | EvClose :: _ => ([], st, Break)
  | EvError _ :: _ => ([], st, Break)
  | EvMessage data :: rest =>
      match on_message st data with
      | (ys, st1, Break) => (ys, st1, Break)
      | (ys, st1, Continue) =>
          let '(ys', st2, flow) := loop st1 rest in
          (ys ++ ys', st2, flow)
      end
  end.

End Stream.

(* ====================================================================== *)
(** ** Aggregate sink *)
(* ====================================================================== *)

Module Aggregate.

(** Body of [if (content)] in the [update] branch: [fullContent] and the
    state afterwards. *)
Definition on_content (st : Session) (fullContent : string)
    (bufferType content : string) : string * Session :=
  (* type switch *)
  let '(fullContent1, lastBufferType1, inThinkingBlock1) :=
    if bool_decide (Some bufferType ≠ lastBufferType st) then
      let '(fc_close, inT) :=
        if inThinkingBlock st then (fullContent +:+ "</think>", false)
        else (fullContent, inThinkingBlock st) in
      let '(fc_open, inT') :=
        if bool_decide (bufferType = "thinking")
        then (fc_close +:+ "<think>", true)
        else (fc_close, inT) in
      (fc_open, Some bufferType, inT')
    else (fullContent, lastBufferType st, inThinkingBlock st) in
  let prev := default "" (prevContentByType st !! bufferType) in
  let mode := modeByType st !! bufferType in
  let '(mode1, modeByType1) :=
    match mode with
    | None =>
        if truthy prev then
          if startsWith content prev
          then (Some snapshot, <[bufferType := snapshot]> (modeByType st))
          else (Some delta_mode, <[bufferType := delta_mode]> (modeByType st))
        else (mode, modeByType st)
    | Some _ => (mode, modeByType st)
    end in
  let '(delta, prevContentByType1) :=
    match mode1 with
    | Some snapshot =>
        (slice (String.length prev) content,
         <[bufferType := content]> (prevContentByType st))
    | Some delta_mode =>
        (content, <[bufferType := prev +:+ content]> (prevContentByType st))
    | None =>
        (content, <[bufferType := content]> (prevContentByType st))
    end in
  ((if truthy delta then fullContent1 +:+ delta else fullContent1),
   {| receivedUpdate := receivedUpdate st;
      lastBufferType := lastBufferType1;
      inThinkingBlock := inThinkingBlock1;
      modeByType := modeByType1;
      prevContentByType := prevContentByType1 |}).

(** Body of the loop for one message event. *)
Definition on_message (st : Session) (fullContent : string) (data : Data)
    : string * Session * Flow :=
  match data with
  | DataMalformed => (fullContent, st, Continue)
  | DataUpdate buffer =>
      let st1 :=
        {| receivedUpdate := true;
           lastBufferType := lastBufferType st;
           inThinkingBlock := inThinkingBlock st;
           modeByType := modeByType st;
           prevContentByType := prevContentByType st |} in
      match buffer with
      | BufferMalformed => (fullContent, st1, Continue)
      | BufferData bufferType content =>
          if is_segment bufferType then
            if truthy content then
              let '(fullContent1, st2) :=
                on_content st1 fullContent bufferType content in
              (fullContent1, st2, Continue)
            else (fullContent, st1, Continue)
          else (fullContent, st1, Continue)
      end
  | DataState inProgress =>
      if negb inProgress then
        if receivedUpdate st then
          if inThinkingBlock st then
            (fullContent +:+ "</think>",
             {| receivedUpdate := receivedUpdate st;
                lastBufferType := lastBufferType st;
                inThinkingBlock := false;
                modeByType := modeByType st;
                prevContentByType := prevContentByType st |},
             Break)
          else (fullContent, st, Break)
        else (fullContent, st, Continue)
      else (fullContent, st, Continue)
  | DataOther => (fullContent, st, Continue)
  end.

(** The [for await] loop, threading [fullContent]. *)
Fixpoint loop (st : Session) (fullContent : string) (events : list WsEvent)
    : string * Session * Flow :=
  match events with
  | [] => (fullContent, st, Continue)
  | EvClose :: _ => (fullContent, st, Break)
  | EvError _ :: _ => (fullContent, st, Break)
  | EvMessage data :: rest =>
      match on_message st fullContent data with
      | (fullContent1, st1, Break) => (fullContent1, st1, Break)
      | (fullContent1, st1, Continue) => loop st1 fullContent1 rest
      end
  end.

End Aggregate.

(* ====================================================================== *)
(** ** The two entry points *)
(* ====================================================================== *)

(** Outcome of waiting for the socket to open: [onopen], or [onerror]
    first, with the text of the rejection. *)
Inductive Opening :=
| Opened
| OpenFailed (e : string).

(** Outcome of the trigger [fetch]: a response, or a thrown failure. *)
Inductive Fetched :=
| Responded (ok : bool)
| FetchFailed (e : string).

(** What the backend does during one session. *)
Record Backend := mkBackend {
  opening : Opening;
  fetched : Fetched;
  queue : list WsEvent
}.

Record Payload := mkPayload {
  prompt : string;
  payload_chatHistoryId : string;
  adapterName : string
}.

(** The trigger call given to [fetch]. *)
Record Request := mkRequest {
  url : string;
  method : string;
  headers : gmap string string;
  body : Payload
}.

Inductive Promise (A : Type) :=
| Pending
| Resolved (value : A)
| Rejected (reason : string).
Arguments Pending {A}.
Arguments Resolved {A} value.
Arguments Rejected {A} reason.

Section Service.

(** Constants of the configuration module and the clock: [Date_now k] is
    the [k]-th reading of [Date.now()] in a session. *)
Variable BASE_URL : string.
Variable ORIGIN : string.
Variable Date_now : nat -> Z.

(** The [headers] object of the trigger call, built in the same way by
    both entry points; [clientHeaders] is [None] when the argument is
    omitted, else the entries of the [Headers] object. *)
Definition trigger_headers (chatHistoryId jwtToken : string)
    (clientHeaders : option (list (string * string))) : gmap string string :=
  let filteredClientHeaders :=
    match clientHeaders with
    | Some entries => filterAllowedHeaders entries
    | None => ∅
    end in
  <["Referer" := ORIGIN +:+ "/" +:+ chatHistoryId]>
    (<["Origin" := ORIGIN]>
       (<["Content-Type" := "application/json"]>
          (<["Authorization" := "Bearer " +:+ jwtToken]>
             filteredClientHeaders))).

Definition trigger_request (model chatHistoryId jwtToken fullPrompt : string)
    (clientHeaders : option (list (string * string))) : Request :=
  {| url := BASE_URL +:+ "/engine-agent/chat";
     method := "POST";
     headers := trigger_headers chatHistoryId jwtToken clientHeaders;
     body := {| prompt := fullPrompt;
                payload_chatHistoryId := chatHistoryId;
                adapterName := model |} |}.

(** Encoding of the yields, the [k]-th chunk reading the clock for the
    [k]-th time. *)
Fixpoint encode (requestId model : string) (k : nat) (ys : list Yield)
    : list Encoded :=
  match ys with
  | [] => []
  | YChunk content finishReason :: ys' =>
      SSEData (createSSEChunk (Date_now k) requestId model content finishReason)
      :: encode requestId model (S k) ys'
  | YDone :: ys' => SSEDone :: encode requestId model k ys'
  end.

(** A run of the generator: what it yielded, whether it has returned,
    and the trigger calls it issued. *)
Record StreamRun := mkStreamRun {
  yields : list Yield;
  returned : bool;
  stream_requests : list Request
}.

Definition stream_run (model chatHistoryId jwtToken fullPrompt : string)
    (clientHeaders : option (list (string * string))) (backend : Backend)
    : StreamRun :=
  let priming := YChunk "" None in
  match opening backend with
  | OpenFailed e =>
      {| yields := [priming; YChunk ("错误: " +:+ e) (Some "stop"); YDone];
         returned := true;
         stream_requests := [] |}
  | Opened =>
      let request :=
        trigger_request model chatHistoryId jwtToken fullPrompt clientHeaders in
      let '(contents, _, flow) :=
        Stream.loop initial (wsMessageIterator (queue backend)) in
      let frames := map (fun content => YChunk content None) contents in
      match flow with
      | Break =>
          {| yields := priming :: frames ++ [YChunk "" (Some "stop"); YDone];
             returned := true;
             stream_requests := [request] |}
      | Continue =>
          {| yields := priming :: frames;
             returned := false;
             stream_requests := [request] |}
      end
  end.

(** [streamChatGenerator]: the encoded frames yielded for a backend. *)
Definition streamChatGenerator
    (requestId model chatHistoryId userId jwtToken fullPrompt : string)
    (clientHeaders : option (list (string * string))) (backend : Backend)
    : list Encoded :=
  encode requestId model 0
    (yields (stream_run model chatHistoryId jwtToken fullPrompt
               clientHeaders backend)).

(** [nonStreamChat]: the promise and the trigger calls issued. *)
Definition nonStreamChat
    (requestId model chatHistoryId userId jwtToken fullPrompt : string)
    (clientHeaders : option (list (string * string))) (backend : Backend)
    : Promise string * list Request :=
  match opening backend with
  | OpenFailed e => (Rejected ("处理请求失败: " +:+ e), [])
  | Opened =>
      let request :=
        trigger_request model chatHistoryId jwtToken fullPrompt clientHeaders in
      match fetched backend with
      | FetchFailed e => (Rejected ("处理请求失败: " +:+ e), [request])
      | Responded _ =>
          match Aggregate.loop initial "" (wsMessageIterator (queue backend)) with
          | (fullContent, _, Break) => (Resolved fullContent, [request])
          | (_, _, Continue) => (Pending, [request])
          end
      end
  end.

End Service.

(* ====================================================================== *)
(** ** Vocabulary of the properties *)
(* ====================================================================== *)

(** A well-formed [update] frame carrying a buffer of the given segment
    type and content. *)
Definition update (bufferType content : string) : WsEvent :=
  EvMessage (DataUpdate (BufferData bufferType content)).

Definition chat_update (content : string) : WsEvent := update "chat" content.

(** A [state] frame with [inProgress = false]. *)
Definition terminal_state : WsEvent := EvMessage (DataState false).

Definition is_update (e : WsEvent) : bool :=
  match e with
  | EvMessage (DataUpdate _) => true
  | _ => false
  end.

(** [p] is a proper prefix of [s]. *)
Definition proper_prefix (p s : string) : Prop :=
  startsWith s p = true ∧ p ≠ s.

(** Each content has the previous one as a proper prefix. *)
Fixpoint strictly_growing (cs : list string) : Prop :=
  match cs with
  | c1 :: rest =>
      match rest with
      | c2 :: _ => proper_prefix c1 c2 ∧ strictly_growing rest
      | [] => True
      end
  | [] => True
  end.

(** [prevContentByType[t] ?? ""]. *)
Definition prev_of (st : Session) (t : string) : string :=
  default "" (prevContentByType st !! t).

(** The session state with [receivedUpdate] set. *)
Definition mark_received (st : Session) : Session :=
  {| receivedUpdate := true;
     lastBufferType := lastBufferType st;
     inThinkingBlock := inThinkingBlock st;
     modeByType := modeByType st;
     prevContentByType := prevContentByType st |}.


(** What a state needs for the chat updates that follow to be handled by
    the Reconciler alone: the Framer is already on the chat segment. *)
Definition on_chat (st : Session) : Prop :=
  lastBufferType st = Some "chat".

(** Frames of the event stream. *)
Definition frame_choice (e : Encoded) : option Choice :=
  match e with
  | SSEData chunk => head (choices chunk)
  | SSEDone => None
  end.

Definition is_finish_frame (e : Encoded) : bool :=
  match frame_choice e with
  | Some choice => bool_decide (finish_reason choice ≠ None)
  | None => false
  end.

Definition is_sentinel (e : Encoded) : bool :=
  match e with
  | SSEDone => true
  | SSEData _ => false
  end.

(** The content text carried by a frame, empty when it carries none. *)
Definition frame_text (e : Encoded) : string :=
  match frame_choice e with
  | Some choice => default "" (delta choice)
  | None => ""
  end.

Definition has_content (e : Encoded) : bool := truthy (frame_text e).

(** The texts of the non-control frames of an event stream: the frames
    after the priming frame that are neither a finish frame nor the
    sentinel. *)
Definition non_control_texts (out : list Encoded) : list string :=
  frame_text <$>
    filter (λ e, is_finish_frame e = false ∧ is_sentinel e = false) (tail out).

(* ====================================================================== *)
(** ** Message content of the chat route *)
(* ====================================================================== *)

(** One element of a multimodal [content] array; [text] is absent on
    parts such as images. *)
Record ContentItem := mkContentItem {
  item_type : string;
  text : option string
}.

(** The [content] of a message: a string, an array of parts, or any other
    value. *)
Inductive MessageContent :=
| ContentString (s : string)
| ContentArray (items : list ContentItem)
| ContentOther.

(** The line feed character. *)
Definition LF : string := String (ascii_of_nat 10) "".

(** [parts.join(sep)]. *)
Fixpoint join (sep : string) (parts : list string) : string :=
  match parts with
  | [] => ""
  | [part] => part
  | part :: rest => part +:+ sep +:+ join sep rest
  end.

(** [item.type === "text" && item.text]. *)
Definition is_text_item (item : ContentItem) : bool :=
  bool_decide (item_type item = "text") && truthy (default "" (text item)).

(** [extractMessageContent]. *)
Definition extractMessageContent (content : MessageContent) : string :=
  match content with
  | ContentString s => s
  | ContentArray items =>
      join LF ((λ item, default "" (text item)) <$> filter is_text_item items)
  | ContentOther => ""
  end.

(** A message of the request: [role] and [content] may be absent. *)
Record Message := mkMessage {
  role : option string;
  content : option MessageContent
}.

(** [msg.role === "user"]. *)
Definition is_user_message (msg : Message) : bool :=
  bool_decide (role msg = Some "user").

(** [[...messages].reverse().find(msg => msg.role === "user")]. *)
Definition lastUserMessage (messages : list Message) : option Message :=
  List.find is_user_message (reverse messages).

(* ====================================================================== *)
(** ** Further vocabulary *)
(* ====================================================================== *)

(** What the backend sends on the socket once it is open, split at the
    moment the trigger call returns. *)
Record Feed := mkFeed {
  during_trigger : list WsEvent;
  after_trigger : list WsEvent
}.

(** [streamChatGenerator] starts the trigger call without awaiting it and
    starts the iterator in the same turn: the socket callbacks are in place
    before any event is dispatched, so every event is queued. *)
Definition stream_queue (feed : Feed) : list WsEvent :=
  during_trigger feed ++ after_trigger feed.

(** [nonStreamChat] awaits the trigger call before it starts the iterator:
    the events dispatched meanwhile find no callback and are not queued. *)
Definition aggregate_queue (feed : Feed) : list WsEvent :=
  after_trigger feed.

(** A socket close or error, after which the iterator stops. *)
Definition is_terminal_event (e : WsEvent) : bool :=
  match e with
  | EvMessage _ => false
  | EvClose | EvError _ => true
  end.

(** The value that the last entry named [name] gives to it. *)
Definition last_value (name : string) (entries : list (string * string))
    : option string :=
  snd <$> last (filter (λ entry, entry.1 = name) entries).

(** The Framer's two variables agree: the session is inside a thinking
    block exactly when the last segment seen is a thinking segment. *)
Definition framer_consistent (st : Session) : Prop :=
  inThinkingBlock st = true ↔ lastBufferType st = Some "thinking".

(** The Reconciler's two objects agree: only the two segment types are
    recorded, a recorded content is not empty, and a mode is set only for
    a segment type that has a recorded content. *)
Definition reconciler_consistent (st : Session) : Prop :=
  ∀ t,
    (∀ p, prevContentByType st !! t = Some p → p ≠ "" ∧ is_segment t = true) ∧
    (∀ m, modeByType st !! t = Some m → is_Some (prevContentByType st !! t)).

(** A frame that carries content and is neither a finish frame nor the
    sentinel. *)
Definition is_content_frame (e : Encoded) : Prop :=
  has_content e = true ∧ is_finish_frame e = false ∧ is_sentinel e = false.

(* ====================================================================== *)
(** ** Strings *)
(* ====================================================================== *)

Section StringFacts.

Lemma sapp_nil_l (s : string) : "" +:+ s = s.
Proof. reflexivity. Qed.

Lemma sapp_cons (a : ascii) (s1 s2 : string) :
  String a s1 +:+ s2 = String a (s1 +:+ s2).
Proof. reflexivity. Qed.

Lemma sapp_nil_r (s : string) : s +:+ "" = s.
Proof.
  induction s as [|a s IH]; [reflexivity |].
  by rewrite sapp_cons, IH.
Qed.

Lemma sapp_assoc (s1 s2 s3 : string) : (s1 +:+ s2) +:+ s3 = s1 +:+ (s2 +:+ s3).
Proof.
  induction s1 as [|a s1 IH]; [reflexivity |].
  by rewrite !sapp_cons, IH.
Qed.

Lemma truthy_true (s : string) : truthy s = true ↔ s ≠ "".
Proof. destruct s; simpl; split; intros; congruence. Qed.

Lemma truthy_false (s : string) : truthy s = false ↔ s = "".
Proof. destruct s; simpl; split; intros; congruence. Qed.

Lemma truthy_app_l (s1 s2 : string) : truthy s1 = true → truthy (s1 +:+ s2) = true.
Proof. destruct s1; [discriminate | by rewrite sapp_cons]. Qed.

Lemma slice_app (p r : string) : slice (String.length p) (p +:+ r) = r.
Proof.
  induction p as [|a p IH]; [by destruct r |].
  rewrite sapp_cons. exact IH.
Qed.

Lemma startsWith_app (p r : string) : startsWith (p +:+ r) p = true.
Proof.
  unfold startsWith. induction p as [|a p IH].
  - by destruct r.
  - rewrite sapp_cons. simpl.
    destruct (ascii_dec a a); [exact IH | congruence].
Qed.

(** A content that starts with [p] is [p] followed by its slice. *)
Lemma startsWith_slice (s p : string) :
  startsWith s p = true → s = p +:+ slice (String.length p) s.
Proof.
  unfold startsWith. revert s. induction p as [|a p IH]; intros s H.
  - by destruct s.
  - destruct s as [|b s]; simpl in H; [discriminate |].
    destruct (ascii_dec a b) as [->|]; [| discriminate].
    rewrite sapp_cons. simpl. f_equal. by apply IH.
Qed.

Lemma proper_prefix_slice (p s : string) :
  proper_prefix p s → truthy (slice (String.length p) s) = true.
Proof.
  intros [Hp Hne]. apply truthy_true. intros Hs.
  apply startsWith_slice in Hp. rewrite Hs in Hp.
  rewrite (sapp_nil_r p) in Hp. congruence.
Qed.

Lemma proper_prefix_truthy (p s : string) : proper_prefix p s → truthy s = true.
Proof.
  intros [Hp Hne]. apply truthy_true. intros ->.
  destruct p; [congruence | discriminate].
Qed.

Lemma last_cons_default {A : Type} (d x : A) (l : list A) :
  default d (last (x :: l)) = default x (last l).
Proof. rewrite last_cons. by destruct (last l). Qed.

Lemma concat_all_app (l1 l2 : list string) :
  concat_all (l1 ++ l2) = concat_all l1 +:+ concat_all l2.
Proof.
  induction l1 as [|s l1 IH]; simpl; [reflexivity |].
  by rewrite IH, sapp_assoc.
Qed.

End StringFacts.

(* ====================================================================== *)
(** ** The aggregate sink accumulates what the event-stream sink yields *)
(* ====================================================================== *)

Section Refinement.

Lemma aggregate_on_content (st : Session) (fullContent t c : string) :
  Aggregate.on_content st fullContent t c =
    (fullContent +:+ concat_all (Stream.on_content st t c).1,
     (Stream.on_content st t c).2).
Proof.
  unfold Aggregate.on_content, Stream.on_content.
  repeat case_match; simplify_eq/=;
    rewrite ?concat_all_app; simpl; rewrite ?sapp_nil_r, ?sapp_assoc;
    try reflexivity.
Qed.

Lemma aggregate_on_message (st : Session) (fullContent : string) (data : Data) :
  Aggregate.on_message st fullContent data =
    (fullContent +:+ concat_all (Stream.on_message st data).1.1,
     (Stream.on_message st data).1.2,
     (Stream.on_message st data).2).
Proof.
  destruct data as [|[|t c]|[|]|]; simpl; rewrite ?sapp_nil_r; try reflexivity.
  - destruct (is_segment t), (truthy c); simpl; rewrite ?sapp_nil_r;
      try reflexivity.
    rewrite aggregate_on_content.
    by destruct (Stream.on_content _ t c).
  - destruct (receivedUpdate st), (inThinkingBlock st); simpl;
      by rewrite ?sapp_nil_r.
Qed.

Lemma aggregate_loop (events : list WsEvent) :
  ∀ (st : Session) (fullContent : string),
    Aggregate.loop st fullContent events =
      (fullContent +:+ concat_all (Stream.loop st events).1.1,
       (Stream.loop st events).1.2,
       (Stream.loop st events).2).
Proof.
  induction events as [|[data| |e] rest IH]; intros st fullContent; simpl;
    rewrite ?sapp_nil_r; try reflexivity.
  rewrite aggregate_on_message.
  destruct (Stream.on_message st data) as [[ys st1] [|]]; simpl;
    [| reflexivity].
  rewrite IH.
  destruct (Stream.loop st1 rest) as [[ys' st2] flow]; simpl.
  by rewrite concat_all_app, sapp_assoc.
Qed.

End Refinement.

(* ====================================================================== *)
(** ** The consumption loop *)
(* ====================================================================== *)

Section Loop.

(** The loop never looks past the terminal event, so it sees the queue
    as the iterator yields it. *)
Lemma stream_loop_iterator (queue : list WsEvent) :
  ∀ st, Stream.loop st (wsMessageIterator queue) = Stream.loop st queue.
Proof.
  induction queue as [|[data| |e] rest IH]; intros st; simpl; try reflexivity.
  destruct (Stream.on_message st data) as [[ys st1] [|]]; [| reflexivity].
  by rewrite IH.
Qed.

Lemma aggregate_loop_iterator (queue : list WsEvent) (st : Session)
    (fullContent : string) :
  Aggregate.loop st fullContent (wsMessageIterator queue) =
    Aggregate.loop st fullContent queue.
Proof. by rewrite !aggregate_loop, stream_loop_iterator. Qed.

Lemma stream_loop_step (st st1 st2 : Session) (data : Data)
    (rest : list WsEvent) (ys ys' : list string) (flow : Flow) :
  Stream.on_message st data = (ys, st1, Continue) →
  Stream.loop st1 rest = (ys', st2, flow) →
  Stream.loop st (EvMessage data :: rest) = (ys ++ ys', st2, flow).
Proof. intros H1 H2. simpl. by rewrite H1, H2. Qed.

(** Consumption of a prefix that leaves the loop running, followed by
    more events. *)
Lemma stream_loop_app (pre rest : list WsEvent) :
  ∀ st ys st1,
    Stream.loop st pre = (ys, st1, Continue) →
    Stream.loop st (pre ++ rest) =
      (ys ++ (Stream.loop st1 rest).1.1,
       (Stream.loop st1 rest).1.2,
       (Stream.loop st1 rest).2).
Proof.
  induction pre as [|[data| |e] pre IH]; intros st ys st1 H; simpl in *;
    try discriminate.
  - injection H as <- <-. by destruct (Stream.loop st rest) as [[??]?].
  - destruct (Stream.on_message st data) as [[ys0 st0] [|]]; [| discriminate].
    destruct (Stream.loop st0 pre) as [[ys' st'] flow] eqn:Hpre.
    injection H as <- <- ->.
    rewrite (IH _ _ _ Hpre).
    destruct (Stream.loop st' rest) as [[??]?]; simpl.
    by rewrite app_assoc.
Qed.

(** Once the loop has left by [break], later events are not consumed. *)
Lemma stream_loop_break (pre rest : list WsEvent) :
  ∀ st ys st1,
    Stream.loop st pre = (ys, st1, Break) →
    Stream.loop st (pre ++ rest) = (ys, st1, Break).
Proof.
  induction pre as [|[data| |e] pre IH]; intros st ys st1 H; simpl in *;
    try discriminate; try exact H.
  destruct (Stream.on_message st data) as [[ys0 st0] [|]]; [| exact H].
  destruct (Stream.loop st0 pre) as [[ys' st'] flow] eqn:Hpre.
  injection H as <- <- ->.
  by rewrite (IH _ _ _ Hpre).
Qed.

Lemma on_content_received (st : Session) (t c : string) :
  receivedUpdate (Stream.on_content st t c).2 = receivedUpdate st.
Proof. unfold Stream.on_content. by repeat case_match. Qed.

Lemma on_message_received (st : Session) (data : Data) :
  receivedUpdate (Stream.on_message st data).1.2 =
    receivedUpdate st || is_update (EvMessage data).
Proof.
  destruct data as [|[|t c]|inProgress|]; simpl;
    rewrite ?orb_true_r, ?orb_false_r; try reflexivity.
  - destruct (is_segment t), (truthy c); try reflexivity.
    pose proof (on_content_received (mark_received st) t c) as H.
    unfold mark_received in H.
    by destruct (Stream.on_content _ t c).
  - by destruct (negb inProgress && receivedUpdate st), (inThinkingBlock st).
Qed.

(** While the loop is running, [receivedUpdate] tells whether an update
    event has been consumed. *)
Lemma stream_loop_received (events : list WsEvent) :
  ∀ st ys st1,
    Stream.loop st events = (ys, st1, Continue) →
    receivedUpdate st1 = receivedUpdate st || existsb is_update events.
Proof.
  induction events as [|[data| |e] rest IH]; intros st ys st1 H; simpl in *;
    try discriminate.
  - injection H as <- <-. by rewrite orb_false_r.
  - pose proof (on_message_received st data) as Hr.
    destruct (Stream.on_message st data) as [[ys0 st0] [|]]; [| discriminate].
    destruct (Stream.loop st0 rest) as [[ys' st'] flow] eqn:Hrest.
    injection H as <- <- ->.
    rewrite (IH _ _ _ Hrest). simpl in Hr. rewrite Hr.
    simpl. by rewrite orb_assoc.
Qed.

End Loop.

(* ====================================================================== *)
(** ** The Reconciler on a run of chat updates *)
(* ====================================================================== *)

Section Reconciler.

(** First chat update of a session. *)
Lemma first_chat_update (c : string) :
  truthy c = true →
  ∃ st1,
    Stream.on_message initial (DataUpdate (BufferData "chat" c)) =
      ([c], st1, Continue) ∧
    on_chat st1 ∧ prev_of st1 "chat" = c ∧ modeByType st1 !! "chat" = None.
Proof.
  intros Hc. eexists. split.
  - simpl. rewrite Hc. unfold Stream.on_content. simpl.
    rewrite !lookup_empty. simpl. rewrite Hc. reflexivity.
  - unfold on_chat, prev_of. simpl. by rewrite lookup_insert_eq.
Qed.

(** A chat update that extends the recorded content, while the mode is
    undetermined or snapshot. *)
Lemma snapshot_chat_update (st : Session) (c : string) :
  on_chat st →
  truthy (prev_of st "chat") = true →
  modeByType st !! "chat" ≠ Some delta_mode →
  proper_prefix (prev_of st "chat") c →
  ∃ st1,
    Stream.on_message st (DataUpdate (BufferData "chat" c)) =
      ([slice (String.length (prev_of st "chat")) c], st1, Continue) ∧
    on_chat st1 ∧ prev_of st1 "chat" = c ∧
    modeByType st1 !! "chat" = Some snapshot.
Proof.
  intros Hlast Hprev Hmode Hpre.
  pose proof (proper_prefix_truthy _ _ Hpre) as Hc.
  pose proof (proper_prefix_slice _ _ Hpre) as Hs.
  destruct Hpre as [Hstart _].
  unfold on_chat in Hlast. unfold prev_of in *.
  destruct (modeByType st !! "chat") as [[|]|] eqn:Hm; try congruence;
    (eexists; split;
     [ simpl; rewrite Hc; unfold Stream.on_content; simpl;
       rewrite Hlast, Hm;
       rewrite bool_decide_eq_false_2 by (intros H; by apply H);
       rewrite ?Hprev, ?Hstart, ?Hs; reflexivity
     | unfold on_chat; simpl; rewrite ?lookup_insert_eq; auto ]).
Qed.

(** A chat update in delta mode, or the update that selects it. *)
Lemma delta_chat_update (st : Session) (c : string) :
  on_chat st →
  truthy c = true →
  modeByType st !! "chat" = Some delta_mode ∨
    (modeByType st !! "chat" = None ∧
     truthy (prev_of st "chat") = true ∧
     startsWith c (prev_of st "chat") = false) →
  ∃ st1,
    Stream.on_message st (DataUpdate (BufferData "chat" c)) =
      ([c], st1, Continue) ∧
    on_chat st1 ∧ prev_of st1 "chat" = prev_of st "chat" +:+ c ∧
    modeByType st1 !! "chat" = Some delta_mode.
Proof.
  intros Hlast Hc Hmode. unfold on_chat in Hlast. unfold prev_of in *.
  destruct Hmode as [Hm | (Hm & Hprev & Hstart)];
    (eexists; split;
     [ simpl; rewrite Hc; unfold Stream.on_content; simpl;
       rewrite Hlast, Hm;
       rewrite bool_decide_eq_false_2 by (intros H; by apply H);
       rewrite ?Hprev, ?Hstart, ?Hc; reflexivity
     | unfold on_chat; simpl; rewrite ?lookup_insert_eq; auto ]).
Qed.

(** A run of growing snapshots: the recorded content followed by the
    deltas is the latest content. *)
Lemma snapshot_run (cs : list string) :
  ∀ st,
    on_chat st →
    truthy (prev_of st "chat") = true →
    modeByType st !! "chat" ≠ Some delta_mode →
    strictly_growing (prev_of st "chat" :: cs) →
    ∃ ys st1,
      Stream.loop st (chat_update <$> cs) = (ys, st1, Continue) ∧
      prev_of st "chat" +:+ concat_all ys =
        default (prev_of st "chat") (last cs) ∧
      (cs ≠ [] → modeByType st1 !! "chat" = Some snapshot).
Proof.
  induction cs as [|c cs IH]; intros st Hlast Hprev Hmode Hgrow.
  - exists [], st. simpl. by rewrite sapp_nil_r.
  - destruct Hgrow as [Hpre Hgrow].
    destruct (snapshot_chat_update st c Hlast Hprev Hmode Hpre)
      as (st1 & Hstep & Hlast1 & Hprev1 & Hmode1).
    destruct (IH st1) as (ys & st2 & Hloop & Hcat & Hm2); auto.
    { rewrite Hprev1. by eapply proper_prefix_truthy. }
    { congruence. }
    { by rewrite Hprev1. }
    exists ([slice (String.length (prev_of st "chat")) c] ++ ys), st2.
    split; [| split].
    + rewrite fmap_cons. by eapply stream_loop_step.
    + simpl. rewrite <- sapp_assoc.
      destruct Hpre as [Hstart _].
      rewrite <- (startsWith_slice _ _ Hstart).
      rewrite Hprev1 in Hcat. rewrite Hcat.
      by rewrite last_cons_default.
    + intros _. destruct cs as [|c' cs]; [| by apply Hm2].
      simpl in Hloop. by injection Hloop as <- <-.
Qed.

(** A run of chat updates in delta mode: every content is yielded as it
    is. *)
Lemma delta_run (cs : list string) :
  ∀ st,
    on_chat st →
    modeByType st !! "chat" = Some delta_mode →
    Forall (λ c, c ≠ "") cs →
    ∃ st1,
      Stream.loop st (chat_update <$> cs) = (cs, st1, Continue) ∧
      modeByType st1 !! "chat" = Some delta_mode.
Proof.
  induction cs as [|c cs IH]; intros st Hlast Hmode Hne.
  - by exists st.
  - apply Forall_cons in Hne as [Hc Hne]. apply truthy_true in Hc.
    destruct (delta_chat_update st c Hlast Hc (or_introl Hmode))
      as (st1 & Hstep & Hlast1 & _ & Hmode1).
    destruct (IH st1 Hlast1 Hmode1 Hne) as (st2 & Hloop & Hm2).
    exists st2. split; [| done].
    rewrite fmap_cons. by apply (stream_loop_step st st1 st2 _ _ [c] cs).
Qed.

(** A whole session of growing snapshots, from its first update. *)
Lemma snapshot_session (c1 : string) (rest : list string) :
  truthy c1 = true →
  strictly_growing (c1 :: rest) →
  ∃ ys st2,
    Stream.loop initial (chat_update <$> c1 :: rest) = (c1 :: ys, st2, Continue) ∧
    c1 +:+ concat_all ys = default c1 (last rest) ∧
    (rest = [] → modeByType st2 !! "chat" = None) ∧
    (rest ≠ [] → modeByType st2 !! "chat" = Some snapshot).
Proof.
  intros Hc1 Hgrow.
  destruct (first_chat_update c1 Hc1) as (st1 & Hstep & Hlast1 & Hprev1 & Hm1).
  destruct (snapshot_run rest st1) as (ys & st2 & Hloop & Hcat & Hm2);
    rewrite ?Hprev1; auto; [congruence |].
  rewrite Hprev1 in Hcat.
  exists ys, st2. split; [| split; [done | split; [| done]]].
  - rewrite fmap_cons. by apply (stream_loop_step initial st1 st2 _ _ [c1] ys).
  - intros ->. simpl in Hloop. by injection Hloop as <- <-.
Qed.

(** A whole session in which the second content does not continue the
    first. *)
Lemma delta_session (c1 c2 : string) (rest : list string) :
  Forall (λ c, c ≠ "") (c1 :: c2 :: rest) →
  startsWith c2 c1 = false →
  ∃ st2,
    Stream.loop initial (chat_update <$> c1 :: c2 :: rest) =
      (c1 :: c2 :: rest, st2, Continue) ∧
    modeByType st2 !! "chat" = Some delta_mode.
Proof.
  intros Hne Hstart.
  apply Forall_cons in Hne as [Hc1 Hne]. apply truthy_true in Hc1.
  apply Forall_cons in Hne as [Hc2 Hne]. apply truthy_true in Hc2.
  destruct (first_chat_update c1 Hc1) as (st1 & Hstep1 & Hlast1 & Hprev1 & Hm1).
  destruct (delta_chat_update st1 c2 Hlast1 Hc2)
    as (st2 & Hstep2 & Hlast2 & _ & Hm2).
  { right. by rewrite Hprev1. }
  destruct (delta_run rest st2 Hlast2 Hm2 Hne) as (st3 & Hloop & Hm3).
  exists st3. split; [| done].
  rewrite !fmap_cons.
  apply (stream_loop_step initial st1 st3 _ _ [c1] (c2 :: rest)); [done |].
  by apply (stream_loop_step st1 st2 st3 _ _ [c2] rest).
Qed.

End Reconciler.

(* ====================================================================== *)
(** ** Properties of the Reconciler *)
(* ====================================================================== *)

(** C1. For a sequence of non-empty chat updates in which each content has
    the previous one as a proper prefix, the deltas emitted by the
    event-stream sink concatenate to the final content, the aggregate sink
    accumulates exactly the final content, and the mode of the chat segment
    is undetermined after the first update, snapshot after the second, and
    snapshot at the end. *)
Theorem snapshot_deltas_rebuild_final_content (cs : list string) (final : string) :
  Forall (λ c, c ≠ "") cs →
  strictly_growing cs →
  last cs = Some final →
  concat_all (Stream.loop initial (chat_update <$> cs)).1.1 = final ∧
  (Aggregate.loop initial "" (chat_update <$> cs)).1.1 = final ∧
  ∀ c1 c2 rest, cs = c1 :: c2 :: rest →
    modeByType (Stream.loop initial [chat_update c1]).1.2 !! "chat" = None ∧
    modeByType (Stream.loop initial [chat_update c1; chat_update c2]).1.2
      !! "chat" = Some snapshot ∧
    modeByType (Stream.loop initial (chat_update <$> cs)).1.2
      !! "chat" = Some snapshot ∧
    modeByType (Aggregate.loop initial "" (chat_update <$> cs)).1.2
      !! "chat" = Some snapshot.
Proof.
  intros Hne Hgrow Hfinal.
  destruct cs as [|c1 rest]; [discriminate |].
  assert (truthy c1 = true) as Hc1.
  { apply truthy_true. by apply Forall_cons in Hne as [? _]. }
  destruct (snapshot_session c1 rest Hc1 Hgrow)
    as (ys & st2 & Hloop & Hcat & _ & Hm).
  assert (c1 +:+ concat_all ys = final) as Hcat'.
  { rewrite Hcat. rewrite last_cons in Hfinal.
    destruct (last rest); simpl; congruence. }
  split; [| split].
  - by rewrite Hloop.
  - rewrite aggregate_loop, Hloop. exact Hcat'.
  - intros c1' c2 rest' [= <- ->].
    destruct Hgrow as [Hpre Hgrow'].
    destruct (snapshot_session c1 [] Hc1 I) as (ys1 & s1 & Hl1 & _ & Hm1 & _).
    destruct (snapshot_session c1 [c2] Hc1 (conj Hpre I))
      as (ys2 & s2 & Hl2 & _ & _ & Hm2).
    simpl fmap in Hl1, Hl2.
    rewrite aggregate_loop, Hloop, Hl1, Hl2. simpl.
    repeat split; auto.
Qed.

Lemma snapshot_deltas_rebuild_final_content_witness :
  concat_all
    (Stream.loop initial (chat_update <$> ["Hello"; "Hello world"])).1.1 =
    "Hello world".
Proof.
  apply (snapshot_deltas_rebuild_final_content ["Hello"; "Hello world"]
           "Hello world").
  - repeat constructor; discriminate.
  - split; [split; [reflexivity | discriminate] | exact I].
  - reflexivity.
Defined.

(** C2. For a sequence of non-empty chat updates whose second content does
    not start with the first, the mode of the chat segment is delta after
    the second update and at the end, the event-stream sink emits the raw
    contents one by one, so that the deltas concatenate to the concatenation
    of the raw contents, which is also what the aggregate sink
    accumulates. *)
Theorem delta_deltas_are_raw_contents (c1 c2 : string) (rest : list string) :
  Forall (λ c, c ≠ "") (c1 :: c2 :: rest) →
  startsWith c2 c1 = false →
  let cs := c1 :: c2 :: rest in
  concat_all (Stream.loop initial (chat_update <$> cs)).1.1 = concat_all cs ∧
  (Aggregate.loop initial "" (chat_update <$> cs)).1.1 = concat_all cs ∧
  modeByType (Stream.loop initial [chat_update c1; chat_update c2]).1.2
    !! "chat" = Some delta_mode ∧
  modeByType (Stream.loop initial (chat_update <$> cs)).1.2
    !! "chat" = Some delta_mode ∧
  modeByType (Aggregate.loop initial "" (chat_update <$> cs)).1.2
    !! "chat" = Some delta_mode.
Proof.
  intros Hne Hstart cs.
  destruct (delta_session c1 c2 rest Hne Hstart) as (st2 & Hloop & Hm).
  destruct (delta_session c1 c2 [] ) as (s2 & Hl2 & Hm2); [| done |].
  { apply Forall_cons in Hne as [? Hne]. apply Forall_cons in Hne as [? _].
    by repeat constructor. }
  simpl fmap in Hl2. subst cs.
  rewrite aggregate_loop, Hloop, Hl2. simpl. auto.
Qed.

Lemma delta_deltas_are_raw_contents_witness :
  concat_all
    (Stream.loop initial (chat_update <$> ["Hello"; " world"; "!"])).1.1 =
    "Hello world!".
Proof.
  apply (delta_deltas_are_raw_contents "Hello" " world" ["!"]).
  - repeat constructor; discriminate.
  - reflexivity.
Defined.

Section Stickiness.

Lemma on_content_mode_sticky (st : Session) (t' c t : string) (m : Mode) :
  modeByType st !! t = Some m →
  modeByType (Stream.on_content st t' c).2 !! t = Some m.
Proof.
  intros Hm. unfold Stream.on_content.
  destruct (decide (t' = t)) as [->|Hne].
  - rewrite Hm. by repeat case_match; simplify_eq/=.
  - repeat case_match; simplify_eq/=; by rewrite ?lookup_insert_ne.
Qed.

Lemma on_message_mode_sticky (st : Session) (data : Data) (t : string)
    (m : Mode) :
  modeByType st !! t = Some m →
  modeByType (Stream.on_message st data).1.2 !! t = Some m.
Proof.
  intros Hm.
  destruct data as [|[|t' c]|inProgress|]; simpl; try done.
  - destruct (is_segment t'), (truthy c); try done.
    pose proof (on_content_mode_sticky (mark_received st) t' c t m Hm) as H.
    unfold mark_received in H.
    by destruct (Stream.on_content _ t' c).
  - by destruct (negb inProgress && receivedUpdate st), (inThinkingBlock st).
Qed.

Lemma loop_mode_sticky (events : list WsEvent) (t : string) (m : Mode) :
  ∀ st,
    modeByType st !! t = Some m →
    modeByType (Stream.loop st events).1.2 !! t = Some m.
Proof.
  induction events as [|[data| |e] rest IH]; intros st Hm; simpl; try done.
  pose proof (on_message_mode_sticky st data t m Hm) as H1.
  destruct (Stream.on_message st data) as [[ys st1] [|]]; simpl in *;
    [| done].
  specialize (IH st1 H1).
  by destruct (Stream.loop st1 rest) as [[ys' st2] flow].
Qed.

(** What one event does to the recorded content of a segment whose mode
    is set. *)
Lemma on_content_prev (st : Session) (t' c t : string) (m : Mode) :
  modeByType st !! t = Some m →
  match m with
  | snapshot =>
      prev_of (Stream.on_content st t' c).2 t = prev_of st t ∨
      (t' = t ∧ prev_of (Stream.on_content st t' c).2 t = c)
  | delta_mode =>
      ∃ suffix,
        prev_of (Stream.on_content st t' c).2 t = prev_of st t +:+ suffix
  end.
Proof.
  intros Hm. unfold Stream.on_content, prev_of.
  destruct (decide (t' = t)) as [->|Hne].
  - rewrite Hm. destruct m.
    + right. split; [done |].
      repeat case_match; simplify_eq/=; by rewrite lookup_insert_eq.
    + exists c. repeat case_match; simplify_eq/=; by rewrite lookup_insert_eq.
  - assert (∀ (v : string) (M : gmap string string),
              default "" (<[t' := v]> M !! t) = default "" (M !! t)) as Hk.
    { intros v M. by rewrite lookup_insert_ne. }
    destruct m.
    + left. repeat case_match; simplify_eq/=; apply Hk.
    + exists "". rewrite sapp_nil_r.
      repeat case_match; simplify_eq/=; apply Hk.
Qed.

End Stickiness.

(** C8 (as the code has it). Once the mode of a segment type is set to
    snapshot or delta, no sequence of events changes it, in either sink.
    While the mode is snapshot, an event either leaves the recorded content
    of that segment unchanged or is an update of that segment whose content
    becomes the recorded content; while the mode is delta, the recorded
    content only grows by a suffix. *)
Theorem mode_is_sticky_and_previous_content_follows
    (st : Session) (t : string) (m : Mode) (events : list WsEvent)
    (fullContent : string) (data : Data) :
  modeByType st !! t = Some m →
  modeByType (Stream.loop st events).1.2 !! t = Some m ∧
  modeByType (Aggregate.loop st fullContent events).1.2 !! t = Some m ∧
  (Aggregate.on_message st fullContent data).1.2 =
    (Stream.on_message st data).1.2 ∧
  match m with
  | snapshot =>
      prev_of (Stream.on_message st data).1.2 t = prev_of st t ∨
      data = DataUpdate (BufferData t (prev_of (Stream.on_message st data).1.2 t))
  | delta_mode =>
      ∃ suffix, prev_of (Stream.on_message st data).1.2 t = prev_of st t +:+ suffix
  end.
Proof.
  intros Hm. split; [| split; [| split]].
  - by apply loop_mode_sticky.
  - rewrite aggregate_loop. simpl. by apply loop_mode_sticky.
  - by rewrite aggregate_on_message.
  - assert (match m with
            | snapshot => prev_of st t = prev_of st t ∨
                          data = DataUpdate (BufferData t (prev_of st t))
            | delta_mode => ∃ suffix, prev_of st t = prev_of st t +:+ suffix
            end) as Hsame.
    { destruct m; [by left |]. exists "". by rewrite sapp_nil_r. }
    destruct data as [|[|t' c]|inProgress|]; simpl; try exact Hsame.
    + destruct (is_segment t'), (truthy c); try exact Hsame.
      pose proof (on_content_prev (mark_received st) t' c t m Hm) as H.
      unfold mark_received in H.
      destruct (Stream.on_content _ t' c) as [ys st1]; simpl in *.
      destruct m; [| exact H].
      destruct H as [H | [-> H]]; [by left | right; by rewrite H].
    + by destruct (negb inProgress && receivedUpdate st), (inThinkingBlock st).
Qed.

Lemma mode_is_sticky_and_previous_content_follows_witness :
  modeByType
    (Stream.loop (Stream.loop initial [chat_update "ab"; chat_update "abc"]).1.2
       [chat_update "x"; update "thinking" "hm"]).1.2 !! "chat" = Some snapshot.
Proof.
  apply (mode_is_sticky_and_previous_content_follows
           (Stream.loop initial [chat_update "ab"; chat_update "abc"]).1.2
           "chat" snapshot [chat_update "x"; update "thinking" "hm"]
           "" DataOther).
  vm_compute. reflexivity.
Defined.

(** C8 as stated fails: in snapshot mode an update whose content is shorter
    than the recorded one truncates the recorded content. *)
Lemma snapshot_previous_content_truncated :
  let st := (Stream.loop initial [chat_update "ab"; chat_update "abc"]).1.2 in
  let st1 := (Stream.on_message st (DataUpdate (BufferData "chat" "x"))).1.2 in
  modeByType st !! "chat" = Some snapshot ∧
  modeByType st1 !! "chat" = Some snapshot ∧
  prev_of st "chat" = "abc" ∧
  prev_of st1 "chat" = "x" ∧
  ¬ (String.length (prev_of st "chat") ≤ String.length (prev_of st1 "chat")).
Proof.
  vm_compute. repeat split; lia.
Qed.

(* ====================================================================== *)
(** ** Termination detection *)
(* ====================================================================== *)

Section Termination.

Lemma terminal_state_stale (st : Session) :
  receivedUpdate st = false →
  Stream.on_message st (DataState false) = ([], st, Continue).
Proof. intros H. simpl. by rewrite H. Qed.

Lemma terminal_state_ends (st : Session) :
  receivedUpdate st = true →
  ∃ st1,
    Stream.on_message st (DataState false) =
      ((if inThinkingBlock st then ["</think>"] else []), st1, Break) ∧
    inThinkingBlock st1 = false.
Proof.
  intros H. simpl. rewrite H.
  destruct (inThinkingBlock st) eqn:Hin; eexists; split; eauto.
Qed.

Lemma stream_loop_flow_app (pre rest : list WsEvent) (st st1 : Session)
    (ys : list string) :
  Stream.loop st pre = (ys, st1, Continue) →
  (Stream.loop st (pre ++ rest)).2 = (Stream.loop st1 rest).2.
Proof. intros H. by rewrite (stream_loop_app pre rest st ys st1 H). Qed.

Lemma aggregate_loop_flow (events : list WsEvent) (st : Session)
    (fullContent : string) :
  (Aggregate.loop st fullContent events).2 = (Stream.loop st events).2.
Proof. by rewrite aggregate_loop. Qed.

(** The aggregate loop after a prefix that leaves it running goes on with
    the events that follow, from the state and the content reached. *)
Lemma aggregate_loop_app (pre rest : list WsEvent) :
  ∀ st fullContent fullContent1 st1,
    Aggregate.loop st fullContent pre = (fullContent1, st1, Continue) →
    Aggregate.loop st fullContent (pre ++ rest) =
      Aggregate.loop st1 fullContent1 rest.
Proof.
  induction pre as [|[data| |e] pre IH]; intros st fc fc1 st1 H;
    simpl in *; try discriminate.
  - by injection H as <- <-.
  - destruct (Aggregate.on_message st fc data) as [[fc0 st0] [|]];
      [| discriminate].
    by apply IH.
Qed.

End Termination.

(** C5. While the session is running, which both sinks are after the same
    events and in the same state, a state event with [inProgress = false]
    that arrives before any update event is skipped by both: the event
    leaves the state and what has been emitted or accumulated as they are,
    the loops do not break on it and go on with the events that follow,
    exactly as if it had not been received.  The same event after at least
    one update event makes both sinks leave the loop, whatever follows it,
    after closing a thinking block that is still open. *)
Theorem terminal_state_ends_session_only_after_update
    (pre rest : list WsEvent) (ys : list string) (st : Session) :
  Stream.loop initial pre = (ys, st, Continue) →
  Aggregate.loop initial "" pre = (concat_all ys, st, Continue) ∧
  (existsb is_update pre = false →
     Stream.on_message st (DataState false) = ([], st, Continue) ∧
     (∀ fullContent,
        Aggregate.on_message st fullContent (DataState false) =
          (fullContent, st, Continue)) ∧
     Stream.loop initial (pre ++ terminal_state :: rest) =
       Stream.loop initial (pre ++ rest) ∧
     Aggregate.loop initial "" (pre ++ terminal_state :: rest) =
       Aggregate.loop initial "" (pre ++ rest) ∧
     Aggregate.loop initial "" (pre ++ terminal_state :: rest) =
       Aggregate.loop st (concat_all ys) rest) ∧
  (existsb is_update pre = true →
     (Stream.on_message st (DataState false)).2 = Break ∧
     (∀ fullContent,
        (Aggregate.on_message st fullContent (DataState false)).2 = Break) ∧
     (Stream.loop initial (pre ++ terminal_state :: rest)).2 = Break ∧
     (Aggregate.loop initial "" (pre ++ terminal_state :: rest)).2 = Break ∧
     (Aggregate.loop initial "" (pre ++ terminal_state :: rest)).1.1 =
       concat_all ys +:+ (if inThinkingBlock st then "</think>" else "")).
Proof.
  intros Hpre.
  pose proof (stream_loop_received pre initial ys st Hpre) as Hrecv.
  assert (Aggregate.loop initial "" pre = (concat_all ys, st, Continue))
    as Hagg by (by rewrite aggregate_loop, Hpre).
  simpl in Hrecv.
  split; [exact Hagg | split; intros Hup; rewrite Hup in Hrecv].
  - pose proof (terminal_state_stale st Hrecv) as Hstep.
    assert (Stream.loop initial (pre ++ terminal_state :: rest) =
            Stream.loop initial (pre ++ rest)) as Heq.
    { rewrite (stream_loop_app pre _ initial ys st Hpre).
      rewrite (stream_loop_app pre rest initial ys st Hpre).
      unfold terminal_state. simpl. rewrite Hrecv. simpl.
      by destruct (Stream.loop st rest) as [[??]?]. }
    split; [done | split; [| split; [done | split]]].
    + intros fullContent. simpl. by rewrite Hrecv.
    + by rewrite !aggregate_loop, Heq.
    + rewrite (aggregate_loop_app pre _ initial "" _ st Hagg).
      unfold terminal_state. simpl. by rewrite Hrecv.
  - destruct (terminal_state_ends st Hrecv) as (st1 & Hstep & _).
    assert ((Stream.loop initial (pre ++ terminal_state :: rest)).2 = Break)
      as Hflow.
    { rewrite (stream_loop_flow_app pre _ initial st ys Hpre).
      unfold terminal_state. simpl. rewrite Hrecv. simpl.
      by destruct (inThinkingBlock st). }
    split; [by rewrite Hstep | split; [| split; [done | split]]].
    + intros fullContent. simpl. rewrite Hrecv.
      by destruct (inThinkingBlock st).
    + by rewrite aggregate_loop_flow.
    + rewrite (aggregate_loop_app pre _ initial "" _ st Hagg).
      unfold terminal_state. simpl. rewrite Hrecv.
      destruct (inThinkingBlock st); simpl; [done | by rewrite sapp_nil_r].
Qed.

Lemma terminal_state_ends_session_only_after_update_witness :
  (Stream.loop initial ([terminal_state; chat_update "Hi"] ++ [terminal_state])).2
    = Break ∧
  (Aggregate.loop initial ""
     ([terminal_state; chat_update "Hi"] ++ [terminal_state])).2 = Break.
Proof.
  assert (Stream.loop initial [terminal_state; chat_update "Hi"] =
          ((Stream.loop initial [terminal_state; chat_update "Hi"]).1.1,
           (Stream.loop initial [terminal_state; chat_update "Hi"]).1.2,
           Continue)) as H by (vm_compute; reflexivity).
  destruct (terminal_state_ends_session_only_after_update
              [terminal_state; chat_update "Hi"] [] _ _ H)
    as (_ & _ & Hafter).
  destruct (Hafter eq_refl) as (_ & _ & Hs & Ha & _).
  by split.
Defined.



(* ====================================================================== *)
(** ** The two sinks on the same backend *)
(* ====================================================================== *)

Section Frames.

Variable Date_now : nat → Z.
Variables requestId model : string.

Lemma frame_text_chunk (now : Z) (content : string)
    (finishReason : option string) :
  frame_text (SSEData (createSSEChunk now requestId model content finishReason))
    = content.
Proof. by destruct content. Qed.

(** The frames that carry the loop's contents are the non-control
    frames, whether or not the finish frame and the sentinel follow. *)
Lemma texts_of_content_frames (contents : list string) (closing : list Yield) :
  closing = [] ∨ closing = [YChunk "" (Some "stop"); YDone] →
  ∀ k,
    frame_text <$>
      filter (λ e, is_finish_frame e = false ∧ is_sentinel e = false)
        (encode Date_now requestId model k
           (map (λ content, YChunk content None) contents ++ closing))
    = contents.
Proof.
  intros Hclosing.
  induction contents as [|c contents IH]; intros k.
  - destruct Hclosing as [-> | ->]; [reflexivity |].
    cbn [encode map app].
    rewrite filter_cons_False; [| by intros [? _]].
    by rewrite filter_cons_False; [| by intros [_ ?]].
  - cbn [encode map app]. rewrite filter_cons_True; [| by split].
    rewrite fmap_cons, frame_text_chunk. f_equal. apply IH.
Qed.

End Frames.

(** The two sinks on the same queue: when the socket opens and the trigger
    call returns, the aggregate sink is pending exactly while the
    event-stream sink has not returned, and once the latter has returned
    the former has resolved to the concatenation of the texts of the
    non-control frames that the event-stream sink emitted. *)
Lemma aggregate_of_queue_is_concatenation_of_stream_texts
    (BASE_URL ORIGIN : string) (Date_now : nat → Z)
    (requestId model chatHistoryId userId jwtToken fullPrompt : string)
    (clientHeaders : option (list (string * string)))
    (backend : Backend) (ok : bool) :
  opening backend = Opened →
  fetched backend = Responded ok →
  (nonStreamChat BASE_URL ORIGIN requestId model chatHistoryId userId jwtToken
     fullPrompt clientHeaders backend).1 =
    if returned (stream_run BASE_URL ORIGIN model chatHistoryId jwtToken
                   fullPrompt clientHeaders backend)
    then Resolved
           (concat_all
              (non_control_texts
                 (streamChatGenerator BASE_URL ORIGIN Date_now requestId model
                    chatHistoryId userId jwtToken fullPrompt clientHeaders
                    backend)))
    else Pending.
Proof.
  intros Hopen Hfetch.
  unfold nonStreamChat, streamChatGenerator, stream_run, non_control_texts.
  rewrite Hopen, Hfetch, aggregate_loop.
  destruct (Stream.loop initial (wsMessageIterator (queue backend)))
    as [[contents st] [|]]; simpl; [reflexivity |].
  rewrite sapp_nil_l. do 2 f_equal. symmetry.
  apply texts_of_content_frames. by right.
Qed.

(** C4 (as the code has it). For every sequence of events that the backend
    sends after the trigger call has returned, on a socket that opened,
    the aggregate sink is pending exactly while the event-stream sink has
    not returned, and once the latter has returned the former has resolved
    to the concatenation of the texts of the non-control frames that the
    event-stream sink emits for that same sequence. *)
Theorem aggregate_is_concatenation_of_stream_texts
    (BASE_URL ORIGIN : string) (Date_now : nat → Z)
    (requestId model chatHistoryId userId jwtToken fullPrompt : string)
    (clientHeaders : option (list (string * string)))
    (feed : Feed) (ok : bool) :
  during_trigger feed = [] →
  let stream_backend :=
    {| opening := Opened; fetched := Responded ok;
       queue := stream_queue feed |} in
  let aggregate_backend :=
    {| opening := Opened; fetched := Responded ok;
       queue := aggregate_queue feed |} in
  (nonStreamChat BASE_URL ORIGIN requestId model chatHistoryId userId jwtToken
     fullPrompt clientHeaders aggregate_backend).1 =
    if returned (stream_run BASE_URL ORIGIN model chatHistoryId jwtToken
                   fullPrompt clientHeaders stream_backend)
    then Resolved
           (concat_all
              (non_control_texts
                 (streamChatGenerator BASE_URL ORIGIN Date_now requestId model
                    chatHistoryId userId jwtToken fullPrompt clientHeaders
                    stream_backend)))
    else Pending.
Proof.
  intros Hduring. cbv zeta. unfold stream_queue, aggregate_queue.
  rewrite Hduring. simpl app.
  by apply (aggregate_of_queue_is_concatenation_of_stream_texts
              BASE_URL ORIGIN Date_now requestId model chatHistoryId userId
              jwtToken fullPrompt clientHeaders _ ok).
Qed.

Lemma aggregate_is_concatenation_of_stream_texts_witness :
  (nonStreamChat "https://backend" "https://origin" "req" "m" "h" "u" "jwt" "p"
     None
     {| opening := Opened; fetched := Responded true;
        queue :=
          aggregate_queue
            {| during_trigger := [];
               after_trigger := [update "thinking" "pondering";
                                 chat_update "Answer"; terminal_state] |} |}).1 =
    Resolved "<think>pondering</think>Answer".
Proof.
  rewrite (aggregate_is_concatenation_of_stream_texts
             "https://backend" "https://origin" (λ _, 0%Z)
             "req" "m" "h" "u" "jwt" "p" None
             {| during_trigger := [];
                after_trigger := [update "thinking" "pondering";
                                  chat_update "Answer"; terminal_state] |}
             true eq_refl).
  reflexivity.
Defined.

(** C4 as stated fails: an update that the backend sends while the trigger
    call is in flight reaches the event-stream sink only, so for the same
    backend events the aggregate sink returns less than the event-stream
    sink emits. *)
Lemma aggregate_misses_events_sent_during_trigger_call :
  let feed :=
    {| during_trigger := [chat_update "Hel"];
       after_trigger := [chat_update "lo"; terminal_state] |} in
  let streamed :=
    streamChatGenerator "https://backend" "https://origin" (λ _, 0%Z)
      "req" "m" "h" "u" "jwt" "p" None
      {| opening := Opened; fetched := Responded true;
         queue := stream_queue feed |} in
  let promise :=
    (nonStreamChat "https://backend" "https://origin" "req" "m" "h" "u" "jwt"
       "p" None
       {| opening := Opened; fetched := Responded true;
          queue := aggregate_queue feed |}).1 in
  concat_all (non_control_texts streamed) = "Hello" ∧
  promise = Resolved "lo" ∧
  promise ≠ Resolved (concat_all (non_control_texts streamed)).
Proof.
  cbv zeta. split; [reflexivity | split; [reflexivity |]].
  intros H. vm_compute in H. discriminate.
Qed.

(* ====================================================================== *)
(** ** Failures *)
(* ====================================================================== *)

Section Failures.

(** A socket close or error met while the loop is running ends it with
    what has been accumulated. *)
Lemma aggregate_loop_terminal (msgs : list WsEvent) (term : WsEvent)
    (rest : list WsEvent) :
  term = EvClose ∨ (∃ e, term = EvError e) →
  ∀ st fullContent fullContent1 st1,
    Aggregate.loop st fullContent msgs = (fullContent1, st1, Continue) →
    Aggregate.loop st fullContent (msgs ++ term :: rest) =
      (fullContent1, st1, Break).
Proof.
  intros Hterm.
  induction msgs as [|[data| |e] msgs IH]; intros st fc fc1 st1 H;
    simpl in *; try discriminate.
  - injection H as <- <-. by destruct Hterm as [-> | [e ->]].
  - destruct (Aggregate.on_message st fc data) as [[fc0 st0] [|]];
      [| discriminate].
    by apply IH.
Qed.

(** The aggregate sink rejects exactly when the socket fails to open or
    the trigger call throws, and the reason wraps the cause. *)
Lemma aggregate_rejected_iff
    (BASE_URL ORIGIN requestId model chatHistoryId userId jwtToken
       fullPrompt : string)
    (clientHeaders : option (list (string * string)))
    (backend : Backend) (reason : string) :
  (nonStreamChat BASE_URL ORIGIN requestId model chatHistoryId userId
     jwtToken fullPrompt clientHeaders backend).1 = Rejected reason ↔
  ∃ e, reason = "处理请求失败: " +:+ e ∧
       (opening backend = OpenFailed e ∨
        (opening backend = Opened ∧ fetched backend = FetchFailed e)).
Proof.
  unfold nonStreamChat.
  destruct (opening backend) as [|e]; [destruct (fetched backend) as [ok|e] |].
  - destruct (Aggregate.loop _ _ _) as [[fc st] [|]]; simpl;
      (split; [discriminate | intros (e & _ & [? | [_ ?]]); discriminate]).
  - simpl. split.
    + intros [= <-]. exists e. auto.
    + intros (e' & -> & [? | [_ [= ->]]]); [discriminate | done].
  - simpl. split.
    + intros [= <-]. exists e. auto.
    + intros (e' & -> & [[= ->] | [? _]]); [done | discriminate].
Qed.

End Failures.

(** C6 (as the code has it). In the aggregate sink, once the socket has
    opened and the trigger call has returned, a socket error or close
    received before any terminal state signal makes the promise resolve
    normally with the content accumulated so far; it is not rejected. *)
Theorem aggregate_resolves_partial_content_on_socket_end
    (BASE_URL ORIGIN requestId model chatHistoryId userId jwtToken
       fullPrompt : string)
    (clientHeaders : option (list (string * string)))
    (backend : Backend) (ok : bool)
    (msgs rest : list WsEvent) (term : WsEvent)
    (fullContent : string) (st : Session) :
  opening backend = Opened →
  fetched backend = Responded ok →
  queue backend = msgs ++ term :: rest →
  term = EvClose ∨ (∃ e, term = EvError e) →
  Aggregate.loop initial "" msgs = (fullContent, st, Continue) →
  (nonStreamChat BASE_URL ORIGIN requestId model chatHistoryId userId jwtToken
     fullPrompt clientHeaders backend).1 = Resolved fullContent ∧
  ∀ reason,
    (nonStreamChat BASE_URL ORIGIN requestId model chatHistoryId userId
       jwtToken fullPrompt clientHeaders backend).1 ≠ Rejected reason.
Proof.
  intros Hopen Hfetch Hqueue Hterm Hloop.
  assert ((nonStreamChat BASE_URL ORIGIN requestId model chatHistoryId userId
             jwtToken fullPrompt clientHeaders backend).1
          = Resolved fullContent) as Hres.
  { unfold nonStreamChat.
    rewrite Hopen, Hfetch, aggregate_loop_iterator, Hqueue.
    by rewrite (aggregate_loop_terminal msgs term rest Hterm _ _ _ _ Hloop). }
  split; [exact Hres |].
  intros reason. rewrite Hres. discriminate.
Qed.

Lemma aggregate_resolves_partial_content_on_socket_end_witness :
  (nonStreamChat "https://backend" "https://origin" "req" "m" "h" "u" "jwt" "p"
     None
     {| opening := Opened; fetched := Responded true;
        queue := [chat_update "Hi"] ++ EvError "boom" :: [] |}).1 =
    Resolved "Hi".
Proof.
  apply (aggregate_resolves_partial_content_on_socket_end
           "https://backend" "https://origin" "req" "m" "h" "u" "jwt" "p" None
           _ true [chat_update "Hi"] [] (EvError "boom") "Hi"
           (Stream.loop initial [chat_update "Hi"]).1.2);
    try reflexivity.
  right. by exists "boom".
Defined.

(** C6 as stated fails: a socket error before any terminal state signal
    gives a normally resolved partial string, not a rejection. *)
Lemma aggregate_socket_error_is_not_rejected :
  let promise :=
    (nonStreamChat "https://backend" "https://origin" "req" "m" "h" "u" "jwt"
       "p" None
       {| opening := Opened; fetched := Responded true;
          queue := [chat_update "Hi"; EvError "boom"] |}).1 in
  promise = Resolved "Hi" ∧ ¬ (∃ reason, promise = Rejected reason).
Proof.
  split; [reflexivity |]. intros [reason H]. vm_compute in H. discriminate.
Qed.

(** C7 (as the code has it). When the socket fails to open, which is the
    failure that reaches the outer handler of the event-stream sink, the
    output after the priming frame is exactly one frame that carries the
    description of the failure as its content together with the finish
    reason [stop], followed by the sentinel; the generator has returned. *)
Theorem stream_failure_is_one_error_finish_frame_then_sentinel
    (BASE_URL ORIGIN : string) (Date_now : nat → Z)
    (requestId model chatHistoryId userId jwtToken fullPrompt : string)
    (clientHeaders : option (list (string * string)))
    (backend : Backend) (e : string) :
  opening backend = OpenFailed e →
  streamChatGenerator BASE_URL ORIGIN Date_now requestId model chatHistoryId
    userId jwtToken fullPrompt clientHeaders backend =
    [ SSEData (createSSEChunk (Date_now 0) requestId model "" None);
      SSEData (createSSEChunk (Date_now 1) requestId model ("错误: " +:+ e)
                 (Some "stop"));
      SSEDone ] ∧
  returned (stream_run BASE_URL ORIGIN model chatHistoryId jwtToken fullPrompt
              clientHeaders backend) = true.
Proof.
  intros Hopen. unfold streamChatGenerator, stream_run. by rewrite Hopen.
Qed.

Lemma stream_failure_is_one_error_finish_frame_then_sentinel_witness :
  frame_text <$>
    streamChatGenerator "https://backend" "https://origin" (λ _, 0%Z)
      "req" "m" "h" "u" "jwt" "p" None
      {| opening := OpenFailed "[object Event]"; fetched := Responded true;
         queue := [] |}
  = [""; "错误: [object Event]"; ""].
Proof.
  destruct (stream_failure_is_one_error_finish_frame_then_sentinel
              "https://backend" "https://origin" (λ _, 0%Z)
              "req" "m" "h" "u" "jwt" "p" None
              {| opening := OpenFailed "[object Event]";
                 fetched := Responded true; queue := [] |}
              "[object Event]" eq_refl) as [-> _].
  reflexivity.
Defined.

(** C7 as stated fails: the output of a failed session does not end with an
    error-content frame, then a separate finish frame, then the sentinel. *)
Lemma stream_failure_has_no_separate_finish_frame :
  ¬ ∃ (before : list Encoded) (err fin : Encoded),
      streamChatGenerator "https://backend" "https://origin" (λ _, 0%Z)
        "req" "m" "h" "u" "jwt" "p" None
        {| opening := OpenFailed "[object Event]"; fetched := Responded true;
           queue := [] |}
      = before ++ [err; fin; SSEDone] ∧
      has_content err = true ∧ is_finish_frame fin = true.
Proof.
  intros (before & err & fin & Hout & Herr & Hfin).
  vm_compute in Hout.
  destruct before as [|b0 [|b1 [|b2 before]]]; simpl in Hout.
  - injection Hout as <- <-. vm_compute in Herr. discriminate.
  - discriminate.
  - discriminate.
  - injection Hout as _ _ _ Hout. by destruct before.
Qed.

(* ====================================================================== *)
(** ** Thinking-block markers *)
(* ====================================================================== *)

(** The path of a terminal state event: the close marker is emitted when
    the session ends inside a thinking block, and the block is left. *)
Lemma terminal_state_closes_thinking_block (st : Session) :
  receivedUpdate st = true →
  inThinkingBlock st = true →
  (Stream.on_message st (DataState false)).1.1 = ["</think>"] ∧
  inThinkingBlock (Stream.on_message st (DataState false)).1.2 = false ∧
  (Aggregate.on_message st "" (DataState false)).1.1 = "</think>".
Proof. intros Hr Hin. simpl. by rewrite Hr, Hin. Qed.

(** A session ended by a terminal state event is outside any thinking
    block when it ends. *)
Lemma terminal_state_session_leaves_block (pre rest : list WsEvent)
    (ys : list string) (st : Session) :
  Stream.loop initial pre = (ys, st, Continue) →
  existsb is_update pre = true →
  inThinkingBlock (Stream.loop initial (pre ++ terminal_state :: rest)).1.2
    = false.
Proof.
  intros Hpre Hup.
  pose proof (stream_loop_received pre initial ys st Hpre) as Hrecv.
  simpl in Hrecv. rewrite Hup in Hrecv.
  rewrite (stream_loop_app pre _ initial ys st Hpre).
  unfold terminal_state. simpl. rewrite Hrecv. simpl.
  by destruct (inThinkingBlock st) eqn:Hin.
Qed.

(** The two scenarios of the specification, on the event-stream sink. *)
Example scenario_growing_snapshots :
  yields (stream_run "https://backend" "https://origin" "m" "h" "jwt" "p" None
            {| opening := Opened; fetched := Responded true;
               queue := [chat_update "Hello"; chat_update "Hello world";
                         terminal_state] |})
  = [ YChunk "" None; YChunk "Hello" None; YChunk " world" None;
      YChunk "" (Some "stop"); YDone ].
Proof. reflexivity. Qed.

Example scenario_thinking_then_answer :
  yields (stream_run "https://backend" "https://origin" "m" "h" "jwt" "p" None
            {| opening := Opened; fetched := Responded true;
               queue := [update "thinking" "pondering"; chat_update "Answer";
                         terminal_state] |})
  = [ YChunk "" None; YChunk "<think>" None; YChunk "pondering" None;
      YChunk "</think>" None; YChunk "Answer" None;
      YChunk "" (Some "stop"); YDone ].
Proof. reflexivity. Qed.

(** C3, on the paths of a socket close or error: the loop is left without
    looking at [inThinkingBlock], so no close marker follows the open
    marker, in either sink. *)
Theorem thinking_block_left_open_on_socket_end :
  let closed :=
    {| opening := Opened; fetched := Responded true;
       queue := [update "thinking" "pondering"; EvClose] |} in
  let errored :=
    {| opening := Opened; fetched := Responded true;
       queue := [update "thinking" "pondering"; EvError "boom"] |} in
  let unbalanced :=
    [ YChunk "" None; YChunk "<think>" None; YChunk "pondering" None;
      YChunk "" (Some "stop"); YDone ] in
  yields (stream_run "https://backend" "https://origin" "m" "h" "jwt" "p" None
            closed) = unbalanced ∧
  yields (stream_run "https://backend" "https://origin" "m" "h" "jwt" "p" None
            errored) = unbalanced ∧
  (nonStreamChat "https://backend" "https://origin" "req" "m" "h" "u" "jwt" "p"
     None closed).1 = Resolved "<think>pondering" ∧
  (nonStreamChat "https://backend" "https://origin" "req" "m" "h" "u" "jwt" "p"
     None errored).1 = Resolved "<think>pondering" ∧
  inThinkingBlock
    (Stream.loop initial [update "thinking" "pondering"; EvClose]).1.2 = true.
Proof. vm_compute. repeat split; reflexivity. Qed.

(* ====================================================================== *)
(** ** Headers of the trigger call *)
(* ====================================================================== *)

Section Headers.

Variable ORIGIN : string.
Variables chatHistoryId jwtToken : string.

(** The server-mandated headers, under the names the code writes. *)
Lemma trigger_headers_mandatory
    (clientHeaders : option (list (string * string))) :
  let headers := trigger_headers ORIGIN chatHistoryId jwtToken clientHeaders in
  headers !! "Authorization" = Some ("Bearer " +:+ jwtToken) ∧
  headers !! "Content-Type" = Some "application/json" ∧
  headers !! "Origin" = Some ORIGIN ∧
  headers !! "Referer" = Some (ORIGIN +:+ "/" +:+ chatHistoryId).
Proof.
  unfold trigger_headers. cbv zeta.
  repeat split; by simplify_map_eq.
Qed.

(** Every other name is sent as the Header Filter left it. *)
Lemma trigger_headers_other (entries : list (string * string)) (name : string) :
  name ∉ ["Authorization"; "Content-Type"; "Origin"; "Referer"] →
  trigger_headers ORIGIN chatHistoryId jwtToken (Some entries) !! name =
    filterAllowedHeaders entries !! name.
Proof.
  intros Hname. unfold trigger_headers.
  rewrite !lookup_insert_ne; [done | | | |]; intros <-; apply Hname;
    set_solver.
Qed.

Lemma filter_entries_lookup (entries : list (string * string)) :
  ∀ filtered dropped name value,
    (filter_entries entries filtered dropped).1 !! name = Some value →
    filtered !! name = Some value ∨
    ((name, value) ∈ entries ∧ isAllowedHeader name = true).
Proof.
  induction entries as [|[n v] entries IH];
    intros filtered dropped name value H; simpl in H; [by left |].
  destruct (isAllowedHeader n) eqn:Hallowed.
  - apply IH in H as [H | [H ?]]; [| right; split; [set_solver | done]].
    destruct (decide (n = name)) as [->|Hne].
    + rewrite lookup_insert_eq in H. injection H as ->.
      right. split; [set_solver | done].
    + rewrite lookup_insert_ne in H by done. by left.
  - apply IH in H as [H | [H ?]]; [by left |].
    right. split; [set_solver | done].
Qed.

(** The Header Filter forwards only allow-listed headers of the caller. *)
Lemma filterAllowedHeaders_lookup (entries : list (string * string))
    (name value : string) :
  filterAllowedHeaders entries !! name = Some value →
  (name, value) ∈ entries ∧ isAllowedHeader name = true.
Proof.
  intros H. apply filter_entries_lookup in H as [H | H]; [| done].
  by rewrite lookup_empty in H.
Qed.

End Headers.

(** C9, where the code departs from it: the caller's [authorization] and
    [content-type] headers pass the Header Filter under their lowercase
    names and are sent next to the mandatory [Authorization] and
    [Content-Type], whose names differ from them in case only. *)
Theorem caller_authorization_is_sent_beside_mandatory
    (ORIGIN chatHistoryId jwtToken callerKey callerType : string) :
  let headers :=
    trigger_headers ORIGIN chatHistoryId jwtToken
      (Some [("authorization", callerKey); ("content-type", callerType)]) in
  headers !! "authorization" = Some callerKey ∧
  headers !! "Authorization" = Some ("Bearer " +:+ jwtToken) ∧
  headers !! "content-type" = Some callerType ∧
  headers !! "Content-Type" = Some "application/json" ∧
  toLowerCase "Authorization" = "authorization" ∧
  toLowerCase "Content-Type" = "content-type".
Proof.
  cbv zeta. split; [| split; [| split; [| split]]].
  - rewrite trigger_headers_other
      by (apply (bool_decide_unpack _); vm_compute; exact I).
    reflexivity.
  - apply trigger_headers_mandatory.
  - rewrite trigger_headers_other
      by (apply (bool_decide_unpack _); vm_compute; exact I).
    reflexivity.
  - apply trigger_headers_mandatory.
  - split; reflexivity.
Qed.

(* ====================================================================== *)
(** ** The event normaliser *)
(* ====================================================================== *)

(** X1. Messages queued before the first socket close or error are yielded
    in arrival order, followed by that terminal event; whatever was queued
    after it is never yielded. *)
Theorem iterator_stops_at_first_terminal
    (msgs rest : list WsEvent) (term : WsEvent) :
  Forall (λ e, is_terminal_event e = false) msgs →
  is_terminal_event term = true →
  wsMessageIterator (msgs ++ term :: rest) = msgs ++ [term].
Proof.
  intros Hmsgs Hterm.
  induction Hmsgs as [|[data| |e] msgs Hm _ IH]; simpl; try discriminate.
  - by destruct term.
  - by rewrite IH.
Qed.

Lemma iterator_stops_at_first_terminal_witness :
  wsMessageIterator
    ([chat_update "a"; terminal_state] ++ EvClose :: [chat_update "late"; EvError "x"])
  = [chat_update "a"; terminal_state] ++ [EvClose].
Proof.
  apply iterator_stops_at_first_terminal; [| reflexivity].
  repeat constructor.
Defined.

(** X2. What the iterator yields is a prefix of the queue, only its last
    element can be a socket close or error, and iterating over what was
    yielded yields the same again. *)
Theorem iterator_yields_prefix_with_terminal_last (queue : list WsEvent) :
  wsMessageIterator queue `prefix_of` queue ∧
  (∀ before e after,
     wsMessageIterator queue = before ++ e :: after →
     after ≠ [] → is_terminal_event e = false) ∧
  wsMessageIterator (wsMessageIterator queue) = wsMessageIterator queue.
Proof.
  induction queue as [|[data| |e] queue (IHp & IHt & IHi)]; simpl.
  - split; [done | split; [| done]]. by intros [|??] ???.
  - split; [by apply prefix_cons | split; [| by rewrite IHi]].
    intros [|b before] e after H Hafter; simplify_eq/=; [done |].
    by eapply IHt.
  - split; [by exists queue | split; [| done]].
    intros [|b [|??]] e' after H Hafter; by simplify_eq/=.
  - split; [by exists queue | split; [| done]].
    intros [|b [|??]] e' after H Hafter; by simplify_eq/=.
Qed.

(* ====================================================================== *)
(** ** The header filter *)
(* ====================================================================== *)

Section HeaderFilter.

Lemma lower_ascii_idemp (c : ascii) : lower_ascii (lower_ascii c) = lower_ascii c.
Proof. destruct c as [[] [] [] [] [] [] [] []]; reflexivity. Qed.

Lemma toLowerCase_idemp (s : string) : toLowerCase (toLowerCase s) = toLowerCase s.
Proof.
  induction s as [|c s IH]; simpl; [done |].
  by rewrite lower_ascii_idemp, IH.
Qed.

Lemma filter_entries_fst (entries : list (string * string)) :
  ∀ filtered dropped name,
    (filter_entries entries filtered dropped).1 !! name =
      if isAllowedHeader name
      then match last_value name entries with
           | Some value => Some value
           | None => filtered !! name
           end
      else filtered !! name.
Proof.
  unfold last_value.
  induction entries as [|[n v] entries IH]; intros filtered dropped name.
  - simpl. by destruct (isAllowedHeader name).
  - simpl. destruct (isAllowedHeader n) eqn:Hn; rewrite IH;
      destruct (isAllowedHeader name) eqn:Hname; try done.
    + destruct (decide (n = name)) as [->|Hne].
      * rewrite filter_cons_True by done. rewrite last_cons.
        destruct (last _) as [[??]|]; simpl; [done |].
        by rewrite lookup_insert_eq.
      * rewrite filter_cons_False by done.
        destruct (last _) as [[??]|]; simpl; [done |].
        by rewrite lookup_insert_ne.
    + apply lookup_insert_ne. intros ->. congruence.
    + rewrite filter_cons_False; [done |]. simpl. intros ->. congruence.
Qed.

Lemma filter_entries_snd (entries : list (string * string)) :
  ∀ filtered dropped,
    (filter_entries entries filtered dropped).2 =
      dropped ++
      (fst <$> filter (λ entry, isAllowedHeader entry.1 = false) entries).
Proof.
  induction entries as [|[n v] entries IH]; intros filtered dropped; simpl.
  - by rewrite app_nil_r.
  - destruct (isAllowedHeader n) eqn:Hn; rewrite IH.
    + rewrite filter_cons_False; [done |]. simpl. congruence.
    + rewrite filter_cons_True by done. by rewrite <- app_assoc.
Qed.

End HeaderFilter.

(** X3. The header filter decides on the lowercase form of a name: a name
    and its lowercase form are allowed or dropped together. *)
Theorem isAllowedHeader_ignores_case (headerName : string) :
  isAllowedHeader (toLowerCase headerName) = isAllowedHeader headerName.
Proof. unfold isAllowedHeader. by rewrite toLowerCase_idemp. Qed.

(** X4. The filtered headers hold, under each allowed name, the value of
    the last caller entry written with exactly that name, and hold nothing
    under any other name. *)
Theorem filterAllowedHeaders_keeps_last_allowed_value
    (entries : list (string * string)) (name : string) :
  filterAllowedHeaders entries !! name =
    if isAllowedHeader name then last_value name entries else None.
Proof.
  unfold filterAllowedHeaders. rewrite filter_entries_fst, lookup_empty.
  by destruct (isAllowedHeader name), (last_value name entries).
Qed.

(** X5. The names reported as dropped are the names of the caller entries
    that are not allowed, in their order, once per entry. *)
Theorem dropped_headers_are_the_disallowed_names
    (entries : list (string * string)) :
  (filter_entries entries ∅ []).2 =
    fst <$> filter (λ entry, isAllowedHeader entry.1 = false) entries.
Proof. by rewrite filter_entries_snd. Qed.

(** X6. Every header of the trigger call is either one of the four
    server-mandated headers with its mandated value, or an allow-listed
    header that the caller supplied with that value; without caller
    headers only the four mandated ones are sent. *)
Theorem trigger_headers_are_mandated_or_allowed
    (ORIGIN chatHistoryId jwtToken : string)
    (clientHeaders : option (list (string * string))) (name value : string) :
  trigger_headers ORIGIN chatHistoryId jwtToken clientHeaders !! name
    = Some value →
  (name, value) ∈
    [ ("Authorization", "Bearer " +:+ jwtToken);
      ("Content-Type", "application/json");
      ("Origin", ORIGIN);
      ("Referer", ORIGIN +:+ "/" +:+ chatHistoryId) ] ∨
  (∃ entries, clientHeaders = Some entries ∧
              (name, value) ∈ entries ∧ isAllowedHeader name = true).
Proof.
  unfold trigger_headers. intros H.
  repeat (apply lookup_insert_Some in H as [[<- <-] | [_ H]];
          [left; set_solver |]).
  right. destruct clientHeaders as [entries|].
  - exists entries. split; [done |]. by apply filterAllowedHeaders_lookup.
  - by rewrite lookup_empty in H.
Qed.

Lemma trigger_headers_are_mandated_or_allowed_witness :
  ("accept", "text/event-stream") ∈
    [ ("Authorization", "Bearer " +:+ "jwt");
      ("Content-Type", "application/json");
      ("Origin", "https://origin");
      ("Referer", "https://origin" +:+ "/" +:+ "h") ] ∨
  (∃ entries,
     Some [("accept", "text/event-stream"); ("cookie", "secret")] = Some entries ∧
     ("accept", "text/event-stream") ∈ entries ∧
     isAllowedHeader "accept" = true).
Proof.
  apply (trigger_headers_are_mandated_or_allowed "https://origin" "h" "jwt"
           (Some [("accept", "text/event-stream"); ("cookie", "secret")])).
  vm_compute. reflexivity.
Defined.

(* ====================================================================== *)
(** ** Shape of the event stream *)
(* ====================================================================== *)

Section StreamShape.

Lemma on_content_yields_truthy (st : Session) (t c : string) :
  Forall (λ y, truthy y = true) (Stream.on_content st t c).1.
Proof.
  unfold Stream.on_content.
  repeat case_match; simplify_eq/=; repeat constructor; done.
Qed.

Lemma on_message_yields_truthy (st : Session) (data : Data) :
  Forall (λ y, truthy y = true) (Stream.on_message st data).1.1.
Proof.
  destruct data as [|[|t c]|inProgress|]; simpl; try by constructor.
  - destruct (is_segment t), (truthy c); try by constructor.
    pose proof (on_content_yields_truthy (mark_received st) t c) as H.
    unfold mark_received in H.
    by destruct (Stream.on_content _ t c).
  - destruct (negb inProgress && receivedUpdate st), (inThinkingBlock st);
      simpl; repeat constructor.
Qed.

Lemma loop_yields_truthy (events : list WsEvent) :
  ∀ st, Forall (λ y, truthy y = true) (Stream.loop st events).1.1.
Proof.
  induction events as [|[data| |e] rest IH]; intros st; simpl;
    try by constructor.
  pose proof (on_message_yields_truthy st data) as H.
  destruct (Stream.on_message st data) as [[ys st1] [|]]; simpl in *; [| done].
  specialize (IH st1).
  destruct (Stream.loop st1 rest) as [[ys' st2] flow]; simpl in *.
  by apply Forall_app.
Qed.

Lemma loop_breaks_on_terminal_event (events : list WsEvent) :
  Exists (λ e, is_terminal_event e = true) events →
  ∀ st, (Stream.loop st events).2 = Break.
Proof.
  induction 1 as [[data| |e] rest Hterm | [data| |e] rest _ IH]; intros st;
    simpl in *; try done.
  destruct (Stream.on_message st data) as [[ys st1] [|]]; simpl; [| done].
  specialize (IH st1). by destruct (Stream.loop st1 rest) as [[??]?].
Qed.

Lemma loop_waits_without_terminal_signal (events : list WsEvent) :
  Forall (λ e, is_terminal_event e = false ∧ e ≠ terminal_state) events →
  ∀ st, (Stream.loop st events).2 = Continue.
Proof.
  induction 1 as [|[data| |e] rest [Hterm Hstate] _ IH]; intros st;
    simpl in *; try done.
  assert ((Stream.on_message st data).2 = Continue) as Hflow.
  { destruct data as [|[|t c]|[|]|]; simpl; try done.
    destruct (is_segment t), (truthy c); try done.
    by destruct (Stream.on_content _ t c). }
  destruct (Stream.on_message st data) as [[ys st1] [|]]; simpl in *;
    [| done].
  specialize (IH st1). by destruct (Stream.loop st1 rest) as [[??]?].
Qed.

Variable Date_now : nat → Z.
Variables requestId model : string.

Lemma encode_app (ys1 ys2 : list Yield) :
  ∀ k, ∃ k',
    encode Date_now requestId model k (ys1 ++ ys2) =
      encode Date_now requestId model k ys1 ++
      encode Date_now requestId model k' ys2.
Proof.
  induction ys1 as [|[c fr|] ys1 IH]; intros k; simpl.
  - by exists k.
  - destruct (IH (S k)) as [k' ->]. by exists k'.
  - destruct (IH k) as [k' ->]. by exists k'.
Qed.

Lemma encode_content_frames (contents : list string) :
  Forall (λ y, truthy y = true) contents →
  ∀ k,
    Forall is_content_frame
      (encode Date_now requestId model k
         (map (λ content, YChunk content None) contents)).
Proof.
  induction 1 as [|c contents Hc _ IH]; intros k; simpl; constructor.
  - unfold is_content_frame, has_content.
    by rewrite frame_text_chunk.
  - apply IH.
Qed.

End StreamShape.

(** X7. A chunk is stamped with the clock reading in whole seconds, rounded
    down; it has exactly one choice; and the content given to it is read
    back from it, the content field being absent exactly when the content
    is empty. *)
Theorem createSSEChunk_timestamp_and_content
    (now : Z) (requestId model content : string)
    (finishReason : option string) :
  let chunk := createSSEChunk now requestId model content finishReason in
  (1000 * created chunk ≤ now < 1000 * created chunk + 1000)%Z ∧
  List.length (choices chunk) = 1 ∧
  frame_text (SSEData chunk) = content ∧
  (delta <$> head (choices chunk) = Some None ↔ content = "").
Proof.
  cbv zeta. split; [| split; [done | split]].
  - simpl. pose proof (Z.div_mod now 1000 ltac:(lia)) as H1.
    pose proof (Z.mod_pos_bound now 1000 ltac:(lia)) as H2. lia.
  - by destruct content.
  - destruct content; simpl; split; congruence.
Qed.

(** X8. The event stream always starts with the priming frame, and every
    frame between the priming frame and the end carries content and is
    neither a finish frame nor the sentinel.  Once the generator has
    returned, the stream ends with exactly one finish frame followed by
    the sentinel; until then it contains neither. *)
Theorem stream_output_is_well_formed
    (BASE_URL ORIGIN : string) (Date_now : nat → Z)
    (requestId model chatHistoryId userId jwtToken fullPrompt : string)
    (clientHeaders : option (list (string * string))) (backend : Backend) :
  let out :=
    streamChatGenerator BASE_URL ORIGIN Date_now requestId model chatHistoryId
      userId jwtToken fullPrompt clientHeaders backend in
  let priming := SSEData (createSSEChunk (Date_now 0) requestId model "" None) in
  ∃ body,
    Forall is_content_frame body ∧
    if returned (stream_run BASE_URL ORIGIN model chatHistoryId jwtToken
                   fullPrompt clientHeaders backend)
    then ∃ fin, out = priming :: body ++ [fin; SSEDone] ∧
                is_finish_frame fin = true
    else out = priming :: body.
Proof.
  cbv zeta. unfold streamChatGenerator, stream_run.
  destruct (opening backend) as [|e].
  - pose proof (loop_yields_truthy (wsMessageIterator (queue backend)) initial)
      as Hys.
    destruct (Stream.loop initial (wsMessageIterator (queue backend)))
      as [[contents st] [|]]; simpl in *.
    + exists (encode Date_now requestId model 1
                (map (λ content, YChunk content None) contents)).
      split; [by apply encode_content_frames | reflexivity].
    + destruct (encode_app Date_now requestId model
                  (map (λ content, YChunk content None) contents)
                  [YChunk "" (Some "stop"); YDone] 1) as [k' ->].
      eexists. split; [by apply encode_content_frames |].
      eexists. split; reflexivity.
  - exists []. split; [constructor |].
    eexists. split; reflexivity.
Qed.

(** X9. Frames already emitted are never retracted: whatever is queued
    after the events of a backend, the event stream for the longer queue
    starts with the event stream for the shorter one. *)
Theorem stream_output_only_grows
    (BASE_URL ORIGIN : string) (Date_now : nat → Z)
    (requestId model chatHistoryId userId jwtToken fullPrompt : string)
    (clientHeaders : option (list (string * string)))
    (o : Opening) (f : Fetched) (queue more : list WsEvent) :
  streamChatGenerator BASE_URL ORIGIN Date_now requestId model chatHistoryId
    userId jwtToken fullPrompt clientHeaders
    {| opening := o; fetched := f; queue := queue |}
  `prefix_of`
  streamChatGenerator BASE_URL ORIGIN Date_now requestId model chatHistoryId
    userId jwtToken fullPrompt clientHeaders
    {| opening := o; fetched := f; queue := queue ++ more |}.
Proof.
  unfold streamChatGenerator, stream_run. simpl.
  destruct o as [|e]; [| done].
  rewrite !stream_loop_iterator.
  destruct (Stream.loop initial queue) as [[ys st] [|]] eqn:Hloop.
  - rewrite (stream_loop_app queue more initial ys st Hloop).
    destruct (Stream.loop st more) as [[ys' st'] flow]; simpl.
    destruct flow; cbn [yields encode]; apply prefix_cons;
      rewrite map_app, <- ?app_assoc;
      match goal with
      | |- _ `prefix_of` encode _ _ _ _ (?a ++ ?b) =>
          destruct (encode_app Date_now requestId model a b 1) as [k' ->]
      end; by eexists.
  - by rewrite (stream_loop_break queue more initial ys st Hloop).
Qed.

(* ====================================================================== *)
(** ** How a session ends *)
(* ====================================================================== *)

(** X10. Once the event-stream generator has returned, events queued later
    change nothing: both sinks give the same result for the longer queue. *)
Theorem events_after_return_are_ignored
    (BASE_URL ORIGIN : string) (Date_now : nat → Z)
    (requestId model chatHistoryId userId jwtToken fullPrompt : string)
    (clientHeaders : option (list (string * string)))
    (o : Opening) (f : Fetched) (queue more : list WsEvent) :
  returned (stream_run BASE_URL ORIGIN model chatHistoryId jwtToken fullPrompt
              clientHeaders {| opening := o; fetched := f; queue := queue |})
    = true →
  streamChatGenerator BASE_URL ORIGIN Date_now requestId model chatHistoryId
    userId jwtToken fullPrompt clientHeaders
    {| opening := o; fetched := f; queue := queue ++ more |} =
  streamChatGenerator BASE_URL ORIGIN Date_now requestId model chatHistoryId
    userId jwtToken fullPrompt clientHeaders
    {| opening := o; fetched := f; queue := queue |} ∧
  nonStreamChat BASE_URL ORIGIN requestId model chatHistoryId userId jwtToken
    fullPrompt clientHeaders
    {| opening := o; fetched := f; queue := queue ++ more |} =
  nonStreamChat BASE_URL ORIGIN requestId model chatHistoryId userId jwtToken
    fullPrompt clientHeaders
    {| opening := o; fetched := f; queue := queue |}.
Proof.
  unfold streamChatGenerator, nonStreamChat, stream_run. simpl.
  destruct o as [|e]; [| done].
  rewrite !aggregate_loop, !stream_loop_iterator.
  destruct (Stream.loop initial queue) as [[ys st] [|]] eqn:Hloop;
    [discriminate |].
  intros _. by rewrite (stream_loop_break queue more initial ys st Hloop).
Qed.

Lemma events_after_return_are_ignored_witness :
  (nonStreamChat "https://backend" "https://origin" "req" "m" "h" "u" "jwt" "p"
     None
     {| opening := Opened; fetched := Responded true;
        queue := [chat_update "Hi"; terminal_state] ++ [chat_update "late"] |}).1
  = Resolved "Hi".
Proof.
  destruct (events_after_return_are_ignored
              "https://backend" "https://origin" (λ _, 0%Z)
              "req" "m" "h" "u" "jwt" "p" None Opened (Responded true)
              [chat_update "Hi"; terminal_state] [chat_update "late"] eq_refl)
    as [_ ->].
  reflexivity.
Defined.

(** X11. A socket close or error anywhere in the queue ends the session:
    the event-stream generator returns and the aggregate promise is
    settled. *)
Theorem socket_end_always_ends_session
    (BASE_URL ORIGIN requestId model chatHistoryId userId jwtToken
       fullPrompt : string)
    (clientHeaders : option (list (string * string))) (backend : Backend) :
  Exists (λ e, is_terminal_event e = true) (queue backend) →
  returned (stream_run BASE_URL ORIGIN model chatHistoryId jwtToken fullPrompt
              clientHeaders backend) = true ∧
  (nonStreamChat BASE_URL ORIGIN requestId model chatHistoryId userId jwtToken
     fullPrompt clientHeaders backend).1 ≠ Pending.
Proof.
  intros Hterm. unfold nonStreamChat, stream_run.
  destruct (opening backend) as [|e]; [| done].
  rewrite aggregate_loop, stream_loop_iterator.
  pose proof (loop_breaks_on_terminal_event (queue backend) Hterm initial) as H.
  destruct (Stream.loop initial (queue backend)) as [[ys st] flow].
  simpl in H. subst flow. split; [done |].
  by destruct (fetched backend).
Qed.

Lemma socket_end_always_ends_session_witness :
  returned (stream_run "https://backend" "https://origin" "m" "h" "jwt" "p" None
              {| opening := Opened; fetched := Responded true;
                 queue := [chat_update "Hi"; EvClose] |}) = true.
Proof.
  apply (socket_end_always_ends_session
           "https://backend" "https://origin" "req" "m" "h" "u" "jwt" "p" None
           {| opening := Opened; fetched := Responded true;
              queue := [chat_update "Hi"; EvClose] |}).
  apply Exists_cons_tl, Exists_cons_hd. reflexivity.
Defined.

(** X12. Without a socket close, a socket error or a state event with
    [inProgress = false], an opened session never finishes, however many
    other events arrive: the generator has not returned and the aggregate
    promise is not resolved. *)
Theorem session_waits_without_terminal_signal
    (BASE_URL ORIGIN requestId model chatHistoryId userId jwtToken
       fullPrompt : string)
    (clientHeaders : option (list (string * string))) (backend : Backend) :
  opening backend = Opened →
  Forall (λ e, is_terminal_event e = false ∧ e ≠ terminal_state)
    (queue backend) →
  returned (stream_run BASE_URL ORIGIN model chatHistoryId jwtToken fullPrompt
              clientHeaders backend) = false ∧
  ∀ s,
    (nonStreamChat BASE_URL ORIGIN requestId model chatHistoryId userId
       jwtToken fullPrompt clientHeaders backend).1 ≠ Resolved s.
Proof.
  intros Hopen Hqueue. unfold nonStreamChat, stream_run. rewrite Hopen.
  rewrite aggregate_loop, stream_loop_iterator.
  pose proof (loop_waits_without_terminal_signal (queue backend) Hqueue initial)
    as H.
  destruct (Stream.loop initial (queue backend)) as [[ys st] flow].
  simpl in H. subst flow. split; [done |].
  intros s. by destruct (fetched backend).
Qed.

Lemma session_waits_without_terminal_signal_witness :
  returned (stream_run "https://backend" "https://origin" "m" "h" "jwt" "p" None
              {| opening := Opened; fetched := Responded true;
                 queue := [chat_update "Hi"; EvMessage (DataState true);
                           EvMessage DataOther] |}) = false.
Proof.
  apply (session_waits_without_terminal_signal
           "https://backend" "https://origin" "req" "m" "h" "u" "jwt" "p" None
           {| opening := Opened; fetched := Responded true;
              queue := [chat_update "Hi"; EvMessage (DataState true);
                        EvMessage DataOther] |});
    [reflexivity |].
  repeat constructor; discriminate.
Defined.

(** X13. The text accumulated by the aggregate sink only grows: what it
    holds after a longer sequence of events starts with what it held after
    any shorter one. *)
Theorem aggregate_content_only_grows
    (st : Session) (fullContent : string) (pre more : list WsEvent) :
  ∃ suffix,
    (Aggregate.loop st fullContent (pre ++ more)).1.1 =
      (Aggregate.loop st fullContent pre).1.1 +:+ suffix.
Proof.
  rewrite !aggregate_loop. simpl.
  destruct (Stream.loop st pre) as [[ys st1] [|]] eqn:Hloop.
  - rewrite (stream_loop_app pre more st ys st1 Hloop). simpl.
    exists (concat_all (Stream.loop st1 more).1.1).
    by rewrite concat_all_app, sapp_assoc.
  - rewrite (stream_loop_break pre more st ys st1 Hloop). simpl.
    exists "". by rewrite sapp_nil_r.
Qed.

(* ====================================================================== *)
(** ** Invariants of the Framer and of the Reconciler *)
(* ====================================================================== *)

Section Invariants.

Lemma on_content_framer (st : Session) (t c : string) :
  framer_consistent st → framer_consistent (Stream.on_content st t c).2.
Proof.
  unfold framer_consistent, Stream.on_content. intros Hst.
  repeat case_match; simplify_eq/=; try done;
    repeat match goal with
           | H : bool_decide _ = true |- _ => apply bool_decide_eq_true in H
           | H : bool_decide _ = false |- _ => apply bool_decide_eq_false in H
           end;
    split; intros; simplify_eq/=; try done; naive_solver.
Qed.

Lemma on_message_framer (st st1 : Session) (data : Data) (ys : list string) :
  framer_consistent st →
  Stream.on_message st data = (ys, st1, Continue) →
  framer_consistent st1.
Proof.
  intros Hst H.
  destruct data as [|[|t c]|inProgress|]; simpl in H; simplify_eq/=; try done.
  - destruct (is_segment t), (truthy c); simplify_eq/=; try done.
    pose proof (on_content_framer (mark_received st) t c Hst) as Hc.
    unfold mark_received in Hc.
    destruct (Stream.on_content _ t c). by simplify_eq/=.
  - destruct (negb inProgress && receivedUpdate st), (inThinkingBlock st);
      by simplify_eq/=.
Qed.

Lemma slice_ge (n : nat) (s : string) : String.length s ≤ n → slice n s = "".
Proof.
  revert n. induction s as [|a s IH]; intros [|n] H; simpl in *;
    try done; try lia.
  apply IH. lia.
Qed.

Lemma truthy_app_r (s1 s2 : string) :
  truthy s2 = true → truthy (s1 +:+ s2) = true.
Proof. destruct s1; [done | by rewrite sapp_cons]. Qed.

Lemma on_content_reconciler (st : Session) (t c : string) :
  is_segment t = true →
  truthy c = true →
  reconciler_consistent st →
  reconciler_consistent (Stream.on_content st t c).2.
Proof.
  intros Ht Hc Hst k. destruct (Hst k) as [Hprev Hmode].
  assert (truthy (default "" (prevContentByType st !! t) +:+ c) = true)
    as Hpc by by apply truthy_app_r.
  unfold Stream.on_content.
  destruct (decide (t = k)) as [->|Hne].
  - split.
    + intros p.
      repeat case_match; simplify_eq/=; rewrite lookup_insert_eq;
        intros [= <-]; (split; [by apply truthy_true | done]).
    + intros m _.
      repeat case_match; simplify_eq/=; by rewrite lookup_insert_eq.
  - split.
    + intros p.
      repeat case_match; simplify_eq/=; rewrite lookup_insert_ne by done;
        apply Hprev.
    + intros m.
      repeat case_match; simplify_eq/=;
        rewrite ?lookup_insert_ne by done; apply Hmode.
Qed.

Lemma on_message_reconciler (st : Session) (data : Data) :
  reconciler_consistent st →
  reconciler_consistent (Stream.on_message st data).1.2.
Proof.
  intros Hst.
  destruct data as [|[|t c]|inProgress|]; simpl; try done.
  - destruct (is_segment t) eqn:Ht, (truthy c) eqn:Hc; try done.
    pose proof (on_content_reconciler (mark_received st) t c Ht Hc Hst) as H.
    unfold mark_received in H.
    by destruct (Stream.on_content _ t c).
  - by destruct (negb inProgress && receivedUpdate st), (inThinkingBlock st).
Qed.

Lemma on_content_other_segment (st : Session) (t' c t : string) :
  t' ≠ t →
  modeByType (Stream.on_content st t' c).2 !! t = modeByType st !! t ∧
  prevContentByType (Stream.on_content st t' c).2 !! t =
    prevContentByType st !! t.
Proof.
  intros Hne. unfold Stream.on_content.
  repeat case_match; simplify_eq/=; by rewrite ?lookup_insert_ne.
Qed.

Lemma on_message_other_segment (st : Session) (data : Data) (t : string) :
  (∀ c, data ≠ DataUpdate (BufferData t c)) →
  modeByType (Stream.on_message st data).1.2 !! t = modeByType st !! t ∧
  prevContentByType (Stream.on_message st data).1.2 !! t =
    prevContentByType st !! t.
Proof.
  intros Hdata.
  destruct data as [|[|t' c]|inProgress|]; simpl; try done.
  - destruct (is_segment t'), (truthy c); try done.
    assert (t' ≠ t) as Hne by (intros ->; by eapply Hdata).
    pose proof (on_content_other_segment (mark_received st) t' c t Hne) as H.
    unfold mark_received in H.
    by destruct (Stream.on_content _ t' c).
  - by destruct (negb inProgress && receivedUpdate st), (inThinkingBlock st).
Qed.

End Invariants.

(** X14. While a session is running, the Framer is inside a thinking block
    exactly when the last segment it has seen is a thinking segment. *)
Theorem running_session_keeps_framer_consistent
    (events : list WsEvent) (ys : list string) (st : Session) :
  Stream.loop initial events = (ys, st, Continue) →
  inThinkingBlock st = true ↔ lastBufferType st = Some "thinking".
Proof.
  assert (∀ evs s0 ys0 s1,
            framer_consistent s0 →
            Stream.loop s0 evs = (ys0, s1, Continue) →
            framer_consistent s1) as Hgen.
  { induction evs as [|[data| |e] rest IH]; intros s0 ys0 s1 H0 H;
      simpl in H; simplify_eq/=; try done.
    destruct (Stream.on_message s0 data) as [[y1 s2] [|]] eqn:Hstep;
      [| done].
    destruct (Stream.loop s2 rest) as [[y2 s3] flow] eqn:Hrest.
    simplify_eq/=.
    eapply IH; [| exact Hrest]. by eapply on_message_framer. }
  intros H. apply (Hgen events initial ys st); [| done].
  split; discriminate.
Qed.

Lemma running_session_keeps_framer_consistent_witness :
  inThinkingBlock
    (Stream.loop initial [chat_update "a"; update "thinking" "b"]).1.2 = true ↔
  lastBufferType
    (Stream.loop initial [chat_update "a"; update "thinking" "b"]).1.2
    = Some "thinking".
Proof.
  apply (running_session_keeps_framer_consistent
           [chat_update "a"; update "thinking" "b"]
           (Stream.loop initial [chat_update "a"; update "thinking" "b"]).1.1).
  reflexivity.
Defined.

(** X15. In every state a session reaches, the Reconciler has recorded
    contents only for the chat and thinking segments, no recorded content
    is empty, and a mode is set only for a segment that has a recorded
    content. *)
Theorem session_keeps_reconciler_consistent (events : list WsEvent) :
  reconciler_consistent (Stream.loop initial events).1.2.
Proof.
  assert (∀ evs s0, reconciler_consistent s0 →
                    reconciler_consistent (Stream.loop s0 evs).1.2) as Hgen.
  { induction evs as [|[data| |e] rest IH]; intros s0 H0; simpl; try done.
    pose proof (on_message_reconciler s0 data H0) as H1.
    destruct (Stream.on_message s0 data) as [[y1 s2] [|]]; simpl in *;
      [| done].
    specialize (IH s2 H1).
    by destruct (Stream.loop s2 rest) as [[y2 s3] flow]. }
  apply Hgen. intros t. split.
  - intros p H. simpl in H. by rewrite lookup_empty in H.
  - intros m H. simpl in H. by rewrite lookup_empty in H.
Qed.

(** X16. The two segment types are reconciled independently: events that
    are not updates of a segment type leave its mode and its recorded
    content as they were. *)
Theorem other_events_leave_segment_untouched
    (events : list WsEvent) (t : string) (st : Session) :
  Forall (λ e, ∀ c, e ≠ update t c) events →
  modeByType (Stream.loop st events).1.2 !! t = modeByType st !! t ∧
  prevContentByType (Stream.loop st events).1.2 !! t =
    prevContentByType st !! t.
Proof.
  intros Hev. revert st.
  induction Hev as [|[data| |e] rest He _ IH]; intros st; simpl; try done.
  assert (∀ c, data ≠ DataUpdate (BufferData t c)) as Hdata.
  { intros c ->. by eapply He. }
  pose proof (on_message_other_segment st data t Hdata) as [H1 H2].
  destruct (Stream.on_message st data) as [[y1 s2] [|]]; simpl in *;
    [| done].
  destruct (IH s2) as [H3 H4].
  destruct (Stream.loop s2 rest) as [[y2 s3] flow]; simpl in *.
  split; congruence.
Qed.

Lemma other_events_leave_segment_untouched_witness :
  modeByType
    (Stream.loop (Stream.loop initial [chat_update "a"; chat_update "ab"]).1.2
       [update "thinking" "x"; update "thinking" "y"; terminal_state]).1.2
    !! "chat"
  = modeByType (Stream.loop initial [chat_update "a"; chat_update "ab"]).1.2
      !! "chat".
Proof.
  apply (other_events_leave_segment_untouched
           [update "thinking" "x"; update "thinking" "y"; terminal_state]
           "chat").
  repeat constructor; discriminate.
Defined.

(* ====================================================================== *)
(** ** Edge behaviour of the Reconciler *)
(* ====================================================================== *)

Section ReconcilerEdges.

Lemma delta_run_prev (cs : list string) :
  ∀ st,
    on_chat st →
    modeByType st !! "chat" = Some delta_mode →
    Forall (λ c, c ≠ "") cs →
    prev_of (Stream.loop st (chat_update <$> cs)).1.2 "chat" =
      prev_of st "chat" +:+ concat_all cs.
Proof.
  induction cs as [|c cs IH]; intros st Hlast Hmode Hne.
  - simpl. by rewrite sapp_nil_r.
  - apply Forall_cons in Hne as [Hc Hne]. apply truthy_true in Hc.
    destruct (delta_chat_update st c Hlast Hc (or_introl Hmode))
      as (st1 & Hstep & Hlast1 & Hprev1 & Hmode1).
    specialize (IH st1 Hlast1 Hmode1 Hne).
    rewrite fmap_cons.
    change (chat_update c) with (EvMessage (DataUpdate (BufferData "chat" c))).
    destruct (Stream.loop st1 (chat_update <$> cs)) as [[ys st2] flow] eqn:Hl.
    rewrite (stream_loop_step st st1 st2 _ _ [c] ys flow Hstep Hl).
    simpl in *. by rewrite IH, Hprev1, sapp_assoc.
Qed.

Lemma startsWith_length (s p : string) :
  startsWith s p = true → String.length p ≤ String.length s.
Proof.
  unfold startsWith. revert s. induction p as [|a p IH]; intros s H; simpl.
  - lia.
  - destruct s as [|b s]; simpl in H; [discriminate |].
    destruct (ascii_dec a b); [| discriminate].
    simpl. apply IH in H. lia.
Qed.

End ReconcilerEdges.

(** X17. In snapshot mode, an update of the current segment whose content
    is the recorded content again, or a beginning of it, emits nothing in
    either sink, and its content becomes the recorded content. *)
Theorem resent_snapshot_emits_nothing
    (st : Session) (fullContent t c : string) :
  is_segment t = true →
  lastBufferType st = Some t →
  modeByType st !! t = Some snapshot →
  c ≠ "" →
  startsWith (prev_of st t) c = true →
  (Stream.on_message st (DataUpdate (BufferData t c))).1.1 = [] ∧
  (Aggregate.on_message st fullContent (DataUpdate (BufferData t c))).1.1
    = fullContent ∧
  prev_of (Stream.on_message st (DataUpdate (BufferData t c))).1.2 t = c ∧
  (Stream.on_message st (DataUpdate (BufferData t c))).2 = Continue.
Proof.
  intros Ht Hlast Hmode Hc Hstart. apply truthy_true in Hc.
  apply startsWith_length in Hstart as Hlen.
  assert (Stream.on_message st (DataUpdate (BufferData t c)) =
          ([], {| receivedUpdate := true;
                  lastBufferType := lastBufferType st;
                  inThinkingBlock := inThinkingBlock st;
                  modeByType := modeByType st;
                  prevContentByType := <[t := c]> (prevContentByType st) |},
           Continue)) as Hstep.
  { simpl. rewrite Ht, Hc. unfold Stream.on_content. simpl.
    rewrite Hlast, Hmode.
    rewrite bool_decide_eq_false_2 by (intros H; by apply H).
    unfold prev_of in Hlen. by rewrite (slice_ge _ _ Hlen). }
  rewrite aggregate_on_message, Hstep. simpl.
  repeat split; [by rewrite sapp_nil_r |].
  unfold prev_of. simpl. by rewrite lookup_insert_eq.
Qed.

Lemma resent_snapshot_emits_nothing_witness :
  (Stream.on_message
     (Stream.loop initial [chat_update "ab"; chat_update "abc"]).1.2
     (DataUpdate (BufferData "chat" "abc"))).1.1 = [].
Proof.
  apply (resent_snapshot_emits_nothing
           (Stream.loop initial [chat_update "ab"; chat_update "abc"]).1.2
           "" "chat" "abc"); try reflexivity.
  discriminate.
Defined.

(** X18. When the second chat content does not start with the first, the
    content recorded for the chat segment at any later point is the
    concatenation of all the raw contents received so far. *)
Theorem delta_mode_records_whole_text (c1 c2 : string) (rest : list string) :
  Forall (λ c, c ≠ "") (c1 :: c2 :: rest) →
  startsWith c2 c1 = false →
  prev_of (Stream.loop initial (chat_update <$> c1 :: c2 :: rest)).1.2 "chat"
    = concat_all (c1 :: c2 :: rest).
Proof.
  intros Hne Hstart.
  apply Forall_cons in Hne as [Hc1 Hne]. apply truthy_true in Hc1.
  apply Forall_cons in Hne as [Hc2 Hne]. apply truthy_true in Hc2.
  destruct (first_chat_update c1 Hc1) as (st1 & Hstep1 & Hlast1 & Hprev1 & Hm1).
  destruct (delta_chat_update st1 c2 Hlast1 Hc2)
    as (st2 & Hstep2 & Hlast2 & Hprev2 & Hm2).
  { right. by rewrite Hprev1. }
  pose proof (delta_run_prev rest st2 Hlast2 Hm2 Hne) as Hprev.
  rewrite !fmap_cons.
  change (chat_update c1) with (EvMessage (DataUpdate (BufferData "chat" c1))).
  change (chat_update c2) with (EvMessage (DataUpdate (BufferData "chat" c2))).
  destruct (Stream.loop st2 (chat_update <$> rest)) as [[ys st3] flow] eqn:Hl.
  pose proof (stream_loop_step st1 st2 st3 _ _ [c2] ys flow Hstep2 Hl) as Hl2.
  rewrite (stream_loop_step initial st1 st3 _ _ [c1] ([c2] ++ ys) flow
             Hstep1 Hl2).
  simpl in *. by rewrite Hprev, Hprev2, Hprev1, sapp_assoc.
Qed.

Lemma delta_mode_records_whole_text_witness :
  prev_of
    (Stream.loop initial (chat_update <$> "Hello" :: " world" :: ["!"])).1.2
    "chat"
  = concat_all ("Hello" :: " world" :: ["!"]).
Proof.
  apply delta_mode_records_whole_text; [| reflexivity].
  repeat constructor; discriminate.
Defined.

(* ====================================================================== *)
(** ** Message content of the chat route *)
(* ====================================================================== *)

Section MessageContent.

Lemma is_text_item_false (item : ContentItem) :
  is_text_item item = false → ¬ is_text_item item.
Proof. intros ->. simpl. tauto. Qed.

Lemma is_text_item_true (item : ContentItem) :
  is_text_item item = true → (is_text_item item : Prop).
Proof. by intros ->. Qed.

End MessageContent.

(** X19. Parts of a content array that are not text parts, or whose text
    is missing or empty, contribute nothing: removing one leaves the
    extracted content unchanged. *)
Theorem extractMessageContent_ignores_other_parts
    (before after : list ContentItem) (item : ContentItem) :
  is_text_item item = false →
  extractMessageContent (ContentArray (before ++ item :: after)) =
    extractMessageContent (ContentArray (before ++ after)).
Proof.
  intros Hitem. simpl.
  rewrite !filter_app, filter_cons_False; [done |].
  by apply is_text_item_false.
Qed.

Lemma extractMessageContent_ignores_other_parts_witness :
  extractMessageContent
    (ContentArray
       ([ {| item_type := "text"; text := Some "look" |} ] ++
        {| item_type := "image_url"; text := None |} ::
        [ {| item_type := "text"; text := Some "here" |} ]))
  = extractMessageContent
      (ContentArray
         ([ {| item_type := "text"; text := Some "look" |} ] ++
          [ {| item_type := "text"; text := Some "here" |} ])).
Proof.
  apply extractMessageContent_ignores_other_parts. reflexivity.
Defined.

(** X20. The texts of the text parts are joined in order by single line
    feeds: a leading text part is followed by a line feed and the content
    of the remaining parts when these have a text part, and stands alone
    otherwise, so that a lone text part reads as the plain string. *)
Theorem extractMessageContent_joins_text_parts
    (item : ContentItem) (s : string) (rest : list ContentItem) :
  item_type item = "text" →
  text item = Some s →
  s ≠ "" →
  extractMessageContent (ContentArray (item :: rest)) =
    if existsb is_text_item rest
    then s +:+ LF +:+ extractMessageContent (ContentArray rest)
    else extractMessageContent (ContentString s).
Proof.
  intros Htype Htext Hs. apply truthy_true in Hs.
  assert (is_text_item item = true) as Hitem.
  { unfold is_text_item. rewrite Htype, Htext. simpl.
    by rewrite Hs. }
  simpl. rewrite filter_cons_True by by apply is_text_item_true.
  rewrite fmap_cons, Htext. simpl.
  induction rest as [|r rest IH]; simpl; [done |].
  destruct (is_text_item r) eqn:Hr.
  - rewrite filter_cons_True by by apply is_text_item_true.
    by rewrite fmap_cons.
  - rewrite filter_cons_False by by apply is_text_item_false.
    simpl. exact IH.
Qed.

Lemma extractMessageContent_joins_text_parts_witness :
  extractMessageContent
    (ContentArray
       ({| item_type := "text"; text := Some "look" |} ::
        [ {| item_type := "image_url"; text := None |};
          {| item_type := "text"; text := Some "here" |} ]))
  = "look" +:+ LF +:+ "here".
Proof.
  rewrite (extractMessageContent_joins_text_parts
             {| item_type := "text"; text := Some "look" |} "look");
    try reflexivity.
  discriminate.
Defined.

(** X21. When a session is reused, the message picked as the last user
    message is the user message that no other user message follows. *)
Theorem lastUserMessage_is_the_last_one
    (before after : list Message) (msg : Message) :
  is_user_message msg = true →
  Forall (λ m, is_user_message m = false) after →
  lastUserMessage (before ++ msg :: after) = Some msg.
Proof.
  unfold lastUserMessage. intros Hmsg Hafter.
  rewrite reverse_app, reverse_cons, <- app_assoc. simpl.
  apply Forall_reverse in Hafter.
  induction Hafter as [|m l Hm _ IH]; simpl.
  - by rewrite Hmsg.
  - by rewrite Hm.
Qed.

Lemma lastUserMessage_is_the_last_one_witness :
  lastUserMessage
    ([ {| role := Some "user"; content := Some (ContentString "first") |} ] ++
     {| role := Some "user"; content := Some (ContentString "second") |} ::
     [ {| role := Some "assistant"; content := Some (ContentString "reply") |};
       {| role := None; content := None |} ])
  = Some {| role := Some "user"; content := Some (ContentString "second") |}.
Proof.
  apply lastUserMessage_is_the_last_one; [reflexivity |].
  repeat constructor.
Defined.

(** X22. No message is picked exactly when the request has no message
    whose role is user. *)
Theorem lastUserMessage_none_iff_no_user_message (messages : list Message) :
  lastUserMessage messages = None ↔
  Forall (λ m, is_user_message m = false) messages.
Proof.
  unfold lastUserMessage. rewrite <- (Forall_reverse _ messages).
  induction (reverse messages) as [|m l IH]; simpl.
  - split; [constructor | done].
  - destruct (is_user_message m) eqn:Hm.
    + split; [discriminate |]. intros H. apply Forall_cons in H as [H _].
      congruence.
    + rewrite IH. split; [by constructor |].
      intros H. by apply Forall_cons in H as [_ H].
Qed.
